(** * FileTransfer: the wire protocol of [file_transfer.py]

    A shallow embedding of the framing functions, of the two client
    operations and of the server of [src/file_transfer.py], followed by
    the properties of the protocol that are proved about them.

    Conventions of the embedding.
    - A Python [bytes] value is a [list byte]; a Python [int] is a [Z];
      a Python [str] is its list of code points ([pystr]).
    - A process (a client, or the server) owns one connection at a time,
      a file store and its standard output; the three make up its
      [world].  A function of the source that takes the socket as its
      first argument is a computation in the monad [M] over that world.
    - The file store maps the path of every regular file to its
      contents; [open] and [os.path.isfile] resolve a name in it
      component by component, and fail as they do on a file system
      without links.
    - The only unbounded loop of the program is the [while] of
      [recv_all]; it is given a loop budget, and a computation that
      exhausts it ends in [Hang]. *)

From Stdlib Require Import ZArith List Lia.
From Stdlib Require Import Strings.Byte Strings.String Strings.Ascii.
From stdpp Require Import base option list gmap.

Local Open Scope Z_scope.

(** ** Bytes *)

Abbreviation bytes := (list byte).

Definition Z_of_byte (b : byte) : Z := Z.of_N (Byte.to_N b).

Definition byte_of_Z (z : Z) : byte :=
  match Byte.of_N (Z.to_N (z mod 256)) with
  | Some b => b
  | None => x00
  end.

(** [len] is Python's [len] on a bytes object or a list. *)
Definition len {A} (l : list A) : Z := Z.of_nat (length l).

(** ** Exceptions and results *)

Inductive exn : Type :=
| ValueError           (* socket.recv with a negative size, open of a name with a NUL *)
| StructError          (* struct.pack of an out-of-range value, struct.unpack of a wrong size *)
| UnicodeEncodeError   (* str.encode of a lone surrogate *)
| UnicodeDecodeError   (* bytes.decode of ill-formed UTF-8 *)
| FileNotFoundError    (* open of a name that leads nowhere *)
| IsADirectoryError    (* open of a name that leads to a directory *)
| NotADirectoryError   (* open of a name that goes through a regular file *)
| OSError.             (* open of a name that is too long *)

Inductive result (A : Type) : Type :=
| Ok (a : A)
| Raise (e : exn)
| Hang.
Arguments Ok {A} a.
Arguments Raise {A} e.
Arguments Hang {A}.

Definition result_map {A B} (f : A -> B) (r : result A) : result B :=
  match r with
  | Ok a => Ok (f a)
  | Raise e => Raise e
  | Hang => Hang
  end.

(** ** [struct]: the two layouts the program uses *)

Inductive fmt : Type :=
| Fmt_i    (* '<i' : little-endian signed 32-bit integer *)
| Fmt_b.   (* '<?' : one-byte boolean *)

Definition fmt_type (f : fmt) : Type :=
  match f with
  | Fmt_i => Z
  | Fmt_b => bool
  end.

Definition calcsize (f : fmt) : Z :=
  match f with
  | Fmt_i => 4
  | Fmt_b => 1
  end.

Definition int32_min : Z := - 2 ^ 31.
Definition int32_max : Z := 2 ^ 31 - 1.

Definition pack_i (v : Z) : result bytes :=
  if (int32_min <=? v) && (v <=? int32_max)
  then Ok [byte_of_Z v; byte_of_Z (v / 2 ^ 8);
           byte_of_Z (v / 2 ^ 16); byte_of_Z (v / 2 ^ 24)]
  else Raise StructError.

Definition pack_b (v : bool) : result bytes :=
  Ok [if v then x01 else x00].

Definition pack (f : fmt) : fmt_type f -> result bytes :=
  match f with
  | Fmt_i => pack_i
  | Fmt_b => pack_b
  end.

(** [struct.pack(str(len(s)) + 's', s)]: a field of exactly [len(s)]
    bytes holds [s] itself. *)
Definition pack_s (s : bytes) : result bytes := Ok s.

Definition unpack_i (bs : bytes) : result Z :=
  match bs with
  | [b0; b1; b2; b3] =>
      let u := Z_of_byte b0 + 2 ^ 8 * Z_of_byte b1
               + 2 ^ 16 * Z_of_byte b2 + 2 ^ 24 * Z_of_byte b3 in
      Ok (if u <? 2 ^ 31 then u else u - 2 ^ 32)
  | _ => Raise StructError
  end.

Definition unpack_b (bs : bytes) : result bool :=
  match bs with
  | [b] => Ok (negb (Z_of_byte b =? 0))
  | _ => Raise StructError
  end.

Definition unpack (f : fmt) : bytes -> result (fmt_type f) :=
  match f with
  | Fmt_i => unpack_i
  | Fmt_b => unpack_b
  end.

(** ** [str]: code points and the UTF-8 codec *)

Abbreviation pystr := (list Z).

(** The code points of a string literal of the source (ASCII). *)
Definition py (s : string) : pystr :=
  map (fun a => Z.of_N (N_of_ascii a)) (list_ascii_of_string s).

Definition is_surrogate (c : Z) : bool := (55296 <=? c) && (c <=? 57343).

(** A Unicode scalar value: what UTF-8 can carry. *)
Definition is_scalar (c : Z) : bool :=
  (0 <=? c) && (c <=? 1114111) && negb (is_surrogate c).

Definition encode_char (c : Z) : result bytes :=
  if negb (is_scalar c) then Raise UnicodeEncodeError
  else if c <? 128 then Ok [byte_of_Z c]
  else if c <? 2048 then
    Ok [byte_of_Z (192 + c / 64); byte_of_Z (128 + c mod 64)]
  else if c <? 65536 then
    Ok [byte_of_Z (224 + c / 4096); byte_of_Z (128 + (c / 64) mod 64);
        byte_of_Z (128 + c mod 64)]
  else
    Ok [byte_of_Z (240 + c / 262144); byte_of_Z (128 + (c / 4096) mod 64);
        byte_of_Z (128 + (c / 64) mod 64); byte_of_Z (128 + c mod 64)].

(** [s.encode()] *)
Fixpoint encode (s : pystr) : result bytes :=
  match s with
  | [] => Ok []
  | c :: s' =>
      match encode_char c with
      | Ok bs => result_map (app bs) (encode s')
      | Raise e => Raise e
      | Hang => Hang
      end
  end.

Definition is_cont (b : byte) : bool :=
  (128 <=? Z_of_byte b) && (Z_of_byte b <=? 191).

Definition cont_bits (b : byte) : Z := Z_of_byte b - 128.

(** [data.decode()]: the strict decoder, which refuses overlong forms,
    surrogates and values above U+10FFFF. *)
Fixpoint decode (bs : bytes) : result pystr :=
  match bs with
  | [] => Ok []
  | b0 :: r0 =>
      let x0 := Z_of_byte b0 in
      if x0 <? 128 then result_map (cons x0) (decode r0)
      else if (194 <=? x0) && (x0 <=? 223) then
        match r0 with
        | b1 :: r1 =>
            if is_cont b1
            then result_map (cons ((x0 - 192) * 64 + cont_bits b1)) (decode r1)
            else Raise UnicodeDecodeError
        | _ => Raise UnicodeDecodeError
        end
      else if (224 <=? x0) && (x0 <=? 239) then
        match r0 with
        | b1 :: b2 :: r2 =>
            let c := (x0 - 224) * 4096 + cont_bits b1 * 64 + cont_bits b2 in
            if is_cont b1 && is_cont b2 && (2048 <=? c) && negb (is_surrogate c)
            then result_map (cons c) (decode r2)
            else Raise UnicodeDecodeError
        | _ => Raise UnicodeDecodeError
        end
      else if (240 <=? x0) && (x0 <=? 244) then
        match r0 with
        | b1 :: b2 :: b3 :: r3 =>
            let c := (x0 - 240) * 262144 + cont_bits b1 * 4096
                     + cont_bits b2 * 64 + cont_bits b3 in
            if is_cont b1 && is_cont b2 && is_cont b3
               && (65536 <=? c) && (c <=? 1114111)
            then result_map (cons c) (decode r3)
            else Raise UnicodeDecodeError
        | _ => Raise UnicodeDecodeError
        end
      else Raise UnicodeDecodeError
  end.

(** ** The file system *)

(** What [open] and [os.path.isfile] make of a name.  The file store of
    a process maps the path of every regular file, written from the top
    directory down with single slashes between the components, to its
    contents.  A directory is there when a file lies under it.  The top
    directory is both the root and the working directory of the
    process, so a name with a leading slash and a name without lead to
    the same place, and [..] at the top stays at the top.  There are no
    links, and no limits but those on the length of names. *)

Definition slash : Z := 47.

(** [os.fsencode(name)]: UTF-8, with the code points U+DC80 to U+DCFF
    standing for the bytes 128 to 255 (surrogateescape). *)
Definition fsencode_char (c : Z) : result bytes :=
  if (56448 <=? c) && (c <=? 56575) then Ok [byte_of_Z (c - 56320)]
  else encode_char c.

Fixpoint fsencode (name : pystr) : result bytes :=
  match name with
  | [] => Ok []
  | c :: name' =>
      match fsencode_char c with
      | Ok bs => result_map (app bs) (fsencode name')
      | Raise e => Raise e
      | Hang => Hang
      end
  end.

(** The length of a name in bytes. *)
Definition fslen (name : pystr) : Z :=
  match fsencode name with
  | Ok bs => len bs
  | _ => 0
  end.

(** The components of a name, [name.split('/')]. *)
Fixpoint split (name : pystr) : list pystr :=
  match name with
  | [] => [[]]
  | c :: name' =>
      if c =? slash then [] :: split name'
      else
        match split name' with
        | first :: rest => (c :: first) :: rest
        | [] => [[c]]
        end
  end.

(** The path that a list of components spells. *)
Fixpoint join (p : list pystr) : pystr :=
  match p with
  | [] => []
  | [c] => c
  | c :: p' => c ++ slash :: join p'
  end.

(** The file [key] lies under the directory [p]. *)
Definition under (p : list pystr) (key : pystr) : bool :=
  (length p <? length (split key))%nat
  && bool_decide (take (length p) (split key) = p).

Definition is_dir (fs : gmap pystr bytes) (p : list pystr) : bool :=
  match p with
  | [] => true
  | _ => existsb (under p) (map fst (map_to_list fs))
  end.

(** Where the components read so far have led. *)
Inductive place : Type :=
| Dir (p : list pystr)                (* a directory *)
| Reg (key : pystr) (data : bytes)    (* a regular file *)
| Vac (key : pystr)                   (* nothing: no entry of that name *)
| Fail (e : exn).                     (* the walk has failed *)

Definition step (fs : gmap pystr bytes) (here : place) (c : pystr) : place :=
  match here with
  | Dir p =>
      if bool_decide (c = []) || bool_decide (c = [46]) then Dir p
      else if bool_decide (c = [46; 46]) then Dir (removelast p)
      else if 255 <? fslen c then Fail OSError
      else
        let q := p ++ [c] in
        match fs !! join q with
        | Some data => Reg (join q) data
        | None => if is_dir fs q then Dir q else Vac (join q)
        end
  | Reg _ _ => Fail NotADirectoryError
  | Vac _ => Fail FileNotFoundError
  | Fail e => Fail e
  end.

Definition walk (fs : gmap pystr bytes) (comps : list pystr) : place :=
  foldl (step fs) (Dir []) comps.

(** The names that are refused before any directory is looked at. *)
Definition name_error (name : pystr) : option exn :=
  match fsencode name with
  | Raise e => Some e
  | Hang => None
  | Ok bs =>
      if existsb (Z.eqb 0) name then Some ValueError
      else if bool_decide (name = []) then Some FileNotFoundError
      else if 4096 <=? len bs then Some OSError
      else None
  end.

(** [open(name, 'rb').read()] *)
Definition open_rb (fs : gmap pystr bytes) (name : pystr) : result bytes :=
  match name_error name with
  | Some e => Raise e
  | None =>
      match walk fs (split name) with
      | Reg _ data => Ok data
      | Dir _ => Raise IsADirectoryError
      | Vac _ => Raise FileNotFoundError
      | Fail e => Raise e
      end
  end.

(** The components of a name without the empty ones that trailing
    slashes leave. *)
Fixpoint strip (comps : list pystr) : list pystr :=
  match comps with
  | [] => []
  | c :: comps' =>
      match strip comps' with
      | [] => if bool_decide (c = []) then [] else [c]
      | rest => c :: rest
      end
  end.

(** A name that ends in a slash after the name of an entry: to create
    it would be to create a directory. *)
Definition names_directory (comps : list pystr) : bool :=
  bool_decide (last comps = Some [])
  && match last (strip comps) with
     | Some c => negb (bool_decide (c = [46]) || bool_decide (c = [46; 46]))
     | None => false
     end.

(** [open(name, 'wb').write(data)]: the file store afterwards. *)
Definition open_wb (fs : gmap pystr bytes) (name : pystr) (data : bytes)
  : result (gmap pystr bytes) :=
  match name_error name with
  | Some e => Raise e
  | None =>
      let comps := split name in
      if names_directory comps then
        match walk fs (removelast (strip comps)) with
        | Dir _ => Raise IsADirectoryError
        | Reg _ _ => Raise NotADirectoryError
        | Vac _ => Raise FileNotFoundError
        | Fail e => Raise e
        end
      else
        match walk fs comps with
        | Reg key _ => Ok (<[key := data]> fs)
        | Vac key => Ok (<[key := data]> fs)
        | Dir _ => Raise IsADirectoryError
        | Fail e => Raise e
        end
  end.

(** What reading a name gives, when it gives something. *)
Definition contents (fs : gmap pystr bytes) (name : pystr) : option bytes :=
  match open_rb fs name with
  | Ok data => Some data
  | _ => None
  end.

(** The name of an entry of the top directory: not empty, not [.] or
    [..], without slash or NUL, and at most 255 bytes long. *)
Definition plain (name : pystr) : bool :=
  match fsencode name with
  | Ok bs =>
      negb (existsb (Z.eqb 0) name)
      && negb (existsb (Z.eqb slash) name)
      && negb (bool_decide (name = []))
      && negb (bool_decide (name = [46]))
      && negb (bool_decide (name = [46; 46]))
      && (len bs <=? 255)
  | _ => false
  end.

(** Where a name leads when every directory on the way is there: [.]
    and empty components are passed over, [..] goes one directory up,
    any other component goes one entry down. *)
Definition lex_step (p : list pystr) (c : pystr) : list pystr :=
  if bool_decide (c = []) || bool_decide (c = [46]) then p
  else if bool_decide (c = [46; 46]) then removelast p
  else p ++ [c].

(** The path of the file that a name stands for. *)
Definition key (name : pystr) : pystr :=
  join (foldl lex_step [] (split name)).

(** [open(name, 'wb')] succeeds: the name leads to a regular file, or
    to nothing in a directory that is there. *)
Definition writable (fs : gmap pystr bytes) (name : pystr) : bool :=
  match open_wb fs name [] with
  | Ok _ => true
  | _ => false
  end.


(** ** The world of a process *)

(** One end of a connection.  [inbuf] holds the bytes the peer sends
    before it closes its end, [outbuf] the bytes written so far.
    [chunks] describes how the transport hands the bytes over: an entry
    [k] lets the next [recv] return at most [k + 1] bytes; once the list
    is used up, a [recv] returns all the bytes it asks for that are
    there. *)
Record sock : Type := Sock {
  inbuf : bytes;
  chunks : list nat;
  outbuf : bytes;
  closed : bool
}.

Inductive line : Type :=
| Text (s : pystr)       (* print(s) *)
| ExnText (e : exn).     (* print(exception) *)

Record world : Type := World {
  conn : sock;
  files : gmap pystr bytes;
  stdout : list line
}.

Definition set_conn (s : sock) (w : world) : world :=
  World s (files w) (stdout w).

Definition M (A : Type) : Type := world -> result A * world.

Definition ret {A} (a : A) : M A := fun w => (Ok a, w).

Definition raise {A} (e : exn) : M A := fun w => (Raise e, w).

Definition bind {A B} (m : M A) (k : A -> M B) : M B :=
  fun w =>
    match m w with
    | (Ok a, w') => k a w'
    | (Raise e, w') => (Raise e, w')
    | (Hang, w') => (Hang, w')
    end.

Declare Scope prog_scope.
Delimit Scope prog_scope with prog.
Notation "x <- m ;; k" := (bind m (fun x => k))
  (at level 20, m at level 99, k at level 200, only parsing) : prog_scope.
Notation "m ;; k" := (bind m (fun _ => k))
  (at level 100, k at level 200, right associativity, only parsing) : prog_scope.
Local Open Scope prog_scope.

(** A value computed by a library call that may raise. *)
Definition lift {A} (r : result A) : M A := fun w => (r, w).

(** [for x in l: body], with the variables the loop updates passed
    from one iteration to the next. *)
Fixpoint for_in {A S} (l : list A) (body : A -> S -> M S) (acc : S) : M S :=
  match l with
  | [] => ret acc
  | x :: l' => acc' <- body x acc ;; for_in l' body acc'
  end.

(** [range(n)] *)
Definition range (n : Z) : list nat := seq 0 (Z.to_nat n).

(** [try: body except Exception as e: handler(e)] *)
Definition try_except {A} (body : M A) (handler : exn -> M A) : M A :=
  fun w =>
    match body w with
    | (Raise e, w') => handler e w'
    | other => other
    end.

(** [with sock: body]: the connection is closed when the body is left,
    by its end or by an exception. *)
Definition with_conn {A} (body : M A) : M A :=
  fun w =>
    match body w with
    | (Hang, w') => (Hang, w')
    | (r, w') =>
        let s := conn w' in
        (r, set_conn (Sock (inbuf s) (chunks s) (outbuf s) true) w')
    end.

(** ** Sockets, files, printing *)

(** [sock.recv(n)] *)
Definition recv (n : Z) : M bytes :=
  fun w =>
    if n <? 0 then (Raise ValueError, w)
    else
      let s := conn w in
      let want := Z.to_nat n in
      let got :=
        match chunks s with
        | [] => want
        | k :: _ => Nat.min want (S k)
        end in
      (Ok (firstn got (inbuf s)),
       set_conn (Sock (skipn got (inbuf s)) (tail (chunks s))
                      (outbuf s) (closed s)) w).

(** [sock.sendall(data)] *)
Definition sendall (data : bytes) : M unit :=
  fun w =>
    let s := conn w in
    (Ok tt, set_conn (Sock (inbuf s) (chunks s) (outbuf s ++ data) (closed s)) w).

(** [os.path.isfile(filename)]: whether the name leads to a regular
    file; a name that cannot be looked up does not. *)
Definition isfile (filename : pystr) : M bool :=
  fun w =>
    (Ok match name_error filename with
        | Some _ => false
        | None =>
            match walk (files w) (split filename) with
            | Reg _ _ => true
            | _ => false
            end
        end, w).

Definition print (l : line) : M unit :=
  fun w => (Ok tt, World (conn w) (files w) (stdout w ++ [l])).

(** ** Utility functions *)

Definition read_file (filename : pystr) : M bytes :=
  fun w => (open_rb (files w) filename, w).

Definition save_file (filename : pystr) (data : bytes) : M unit :=
  fun w =>
    match open_wb (files w) filename data with
    | Ok fs => (Ok tt, World (conn w) fs (stdout w))
    | Raise e => (Raise e, w)
    | Hang => (Hang, w)
    end.

(** The [while len(data) != num_bytes] loop of [recv_all]. *)
Fixpoint recv_all_loop (fuel : nat) (num_bytes : Z) (data : bytes) : M bytes :=
  if len data =? num_bytes then ret data
  else
    match fuel with
    | O => fun w => (Hang, w)
    | S fuel' =>
        more <- recv num_bytes ;;
        recv_all_loop fuel' num_bytes (data ++ more)
    end.

Section Program.

(** The number of iterations granted to each run of the loop of
    [recv_all]. *)
Variable fuel : nat.

Definition recv_all (num_bytes : Z) : M bytes :=
  data <- recv num_bytes ;;
  recv_all_loop fuel num_bytes data.

Definition recv_formatted_data (frmt : fmt) : M (fmt_type frmt) :=
  data <- recv_all (calcsize frmt) ;;
  lift (unpack frmt data).

Definition recv_single_value (frmt : fmt) : M (fmt_type frmt) :=
  recv_formatted_data frmt.

Definition recv_str : M pystr :=
  length <- recv_single_value Fmt_i ;;
  data <- recv_all length ;;
  lift (decode data).

Definition recv_str_list : M (list pystr) :=
  length <- recv_single_value Fmt_i ;;
  for_in (range length)
    (fun _ lst => s <- recv_str ;; ret (lst ++ [s])) [].

Definition send_str (string : pystr) : M unit :=
  string <- lift (encode string) ;;
  data <- lift (pack Fmt_i (len string)) ;;
  field <- lift (pack_s string) ;;
  sendall (data ++ field).

Definition send_str_list (strings : list pystr) : M unit :=
  data <- lift (pack Fmt_i (len strings)) ;;
  sendall data ;;
  for_in strings (fun string _ => send_str string) tt.

Definition send_bool (boolean : bool) : M unit :=
  data <- lift (pack Fmt_b boolean) ;;
  sendall data.

(** ** Client functions *)

Definition get_files (filenames : list pystr) : M unit :=
  with_conn (
    version_number <- recv_single_value Fmt_i ;;
    if negb (version_number =? 1) then
      print (Text (py "You are on the wrong version."))
    else
      send_bool true ;;
      send_str_list filenames ;;
      for_in filenames (fun filename _ =>
        file_exists <- recv_single_value Fmt_b ;;
        if file_exists : bool then
          size_of_file <- recv_single_value Fmt_i ;;
          file_data <- recv_all size_of_file ;;
          save_file filename file_data
        else
          print (Text (filename ++ py " doesn't exist on the server"))) tt).

Definition put_files (filenames : list pystr) : M unit :=
  with_conn (
    version_number <- recv_single_value Fmt_i ;;
    if negb (version_number =? 1) then
      print (Text (py "You are on the wrong version."))
    else
      send_bool false ;;
      count <- lift (pack Fmt_i (len filenames)) ;;
      sendall count ;;
      for_in filenames (fun filename _ =>
        file_data <- read_file filename ;;
        send_str filename ;;
        size <- lift (pack Fmt_i (len file_data)) ;;
        sendall size ;;
        sendall file_data) tt).

(** ** Server functions *)

Definition server_handle_request : M unit :=
  with_conn (
    version <- lift (pack Fmt_i 1) ;;
    sendall version ;;
    client_connected <- recv_single_value Fmt_b ;;
    if client_connected : bool then
      filenames <- recv_str_list ;;
      for_in filenames (fun filename _ =>
        present <- isfile filename ;;
        if present : bool then
          file_data <- read_file filename ;;
          send_bool true ;;
          size <- lift (pack Fmt_i (len file_data)) ;;
          sendall size ;;
          sendall file_data
        else ret tt) tt
    else
      amount_of_files <- recv_single_value Fmt_i ;;
      for_in (range amount_of_files) (fun _ _ =>
        filename <- recv_str ;;
        size_of_file <- recv_single_value Fmt_i ;;
        file_data <- recv_all size_of_file ;;
        save_file filename file_data) tt).

(** [server.accept()]: the next pending connection becomes the
    connection in hand. *)
Definition accept (s : sock) : M unit :=
  fun w => (Ok tt, set_conn s w).

(** The [while True] loop of [run_server], run over the connections
    that are waiting to be accepted, in their order of arrival.  It
    yields the connections it has closed.  When no connection is left
    the source blocks in [accept]; the embedding stops there. *)
Fixpoint run_server (backlog : list sock) : M (list sock) :=
  match backlog with
  | [] => ret []
  | s :: backlog' =>
      try_except
        (accept s ;; with_conn server_handle_request)
        (fun exception => print (ExnText exception)) ;;
      served <- (fun w => (Ok (conn w), w)) ;;
      rest <- run_server backlog' ;;
      ret (served :: rest)
  end.

End Program.

(** ** Sessions *)

(** A connection that has just been opened, on which the peer will
    send [input], handed over by the transport without splitting. *)
Definition fresh (input : bytes) : sock := Sock input [] [] false.

Definition start (input : bytes) (fs : gmap pystr bytes) : world :=
  World (fresh input) fs [].

Definition sent (w : world) : bytes := outbuf (conn w).

(** A client and the server talking to each other.  What one party
    writes depends on what it has read of the other, so the two
    transcripts are found by letting the parties answer each other in
    rounds, starting from silence: in each round a party is run from its
    initial state on what the other has been seen to send so far. *)
Section Session.

Variable client : M unit.
Variable server : M unit.
Variable client_files : gmap pystr bytes.
Variable server_files : gmap pystr bytes.

Definition client_run (from_server : bytes) : result unit * world :=
  client (start from_server client_files).

Definition server_run (from_client : bytes) : result unit * world :=
  server (start from_client server_files).

(** The pair (bytes from the client, bytes from the server). *)
Fixpoint transcripts (rounds : nat) : bytes * bytes :=
  match rounds with
  | O => ([], [])
  | S n =>
      let '(from_client, from_server) := transcripts n in
      (sent (snd (client_run from_server)), sent (snd (server_run from_client)))
  end.

(** The outcome of the client and the outcome of the server. *)
Definition session (rounds : nat)
  : (result unit * world) * (result unit * world) :=
  let '(from_client, from_server) := transcripts rounds in
  (client_run from_server, server_run from_client).

(** No further round changes what is exchanged. *)
Definition settled (rounds : nat) : Prop :=
  transcripts (S rounds) = transcripts rounds.

End Session.

Definition get_session (fuel : nat) (filenames : list pystr) :=
  session (get_files fuel filenames) (server_handle_request fuel).


(** ** What the wire carries, as the protocol tables give it *)

(** A 4-byte little-endian two's complement integer. *)
Definition int32_le (v : Z) : bytes :=
  [byte_of_Z v; byte_of_Z (v / 2 ^ 8); byte_of_Z (v / 2 ^ 16); byte_of_Z (v / 2 ^ 24)].

(** The UTF-8 bytes of a string that has an encoding. *)
Definition utf8 (s : pystr) : bytes :=
  match encode s with
  | Ok bs => bs
  | _ => []
  end.

(** A length-prefixed byte string. *)
Definition frame (bs : bytes) : bytes := int32_le (len bs) ++ bs.

(** A string that [send_str] can put on the wire: it is made of scalar
    values and the length of its encoding fits the 32-bit prefix. *)
Definition sendable (s : pystr) : Prop :=
  Forall (fun c => is_scalar c = true) s /\ len (utf8 s) <= int32_max.

(** The frames of the strings of a list, one after the other. *)
Definition frames (strings : list pystr) : bytes :=
  flat_map (fun s => frame (utf8 s)) strings.

(** The line the clients print when the version is not theirs. *)
Definition wrong_version : line := Text (py "You are on the wrong version.").

(** ** What a computation leaves alone *)

(** [preserves f m]: whatever its outcome, [m] ends in a world with the
    same [f] as the one it started in. *)
Definition preserves {X A} (f : world -> X) (m : M A) : Prop :=
  forall w, f (snd (m w)) = f w.

(** ** What the server answers to a request for files *)

(** The answer to one requested name: for a file that is there, a true
    flag and the framed contents; for a name that is not there, nothing. *)
Definition get_reply (fs : gmap pystr bytes) (name : pystr) : bytes :=
  match contents fs name with
  | Some data => [x01] ++ frame data
  | None => []
  end.

(** A file, if it is there, is short enough for the 32-bit size field. *)
Definition servable (fs : gmap pystr bytes) (name : pystr) : Prop :=
  forall data, contents fs name = Some data -> len data <= int32_max.

(** What [get_files] writes after it has accepted the version. *)
Definition get_request (filenames : list pystr) : bytes :=
  [x01] ++ int32_le (len filenames) ++ frames filenames.

(** ** What the client writes in a put session *)

(** One uploaded file on the wire: the framed name, then the framed
    contents. *)
Definition put_item (fs : gmap pystr bytes) (name : pystr) : bytes :=
  match contents fs name with
  | Some data => frame (utf8 name) ++ frame data
  | None => []
  end.


(** A local file that [put_files] can send: its name can be framed, it
    leads to a file, and the size of the file fits the 32-bit field. *)
Definition uploadable (fs : gmap pystr bytes) (name : pystr) : Prop :=
  sendable name
  /\ exists data, contents fs name = Some data /\ len data <= int32_max.



(** A file of 2 GiB. *)
Definition two_gib : bytes := replicate (Z.to_nat (2 ^ 31)) x00.

(** ** What the client makes of the answer to a get request *)



(** [m] only ever adds to what has been written on the connection. *)
Definition appends {A} (m : M A) : Prop :=
  forall w, exists more, sent (snd (m w)) = sent w ++ more.

(** ** Main function *)

(** The parsed command line: the command and the files it names.  The
    address and the port only select the peer, which the world holds. *)
Inductive args : Type :=
| Server
| Get (file : list pystr)
| Put (file : list pystr).

(** [all(os.path.isfile(filename) for filename in file)] *)
Fixpoint all_isfile (file : list pystr) : M bool :=
  match file with
  | [] => ret true
  | filename :: file' =>
      present <- isfile filename ;;
      if present : bool then all_isfile file' else ret false
  end.

(** [main], from the parsed arguments on; [backlog] holds the
    connections that arrive while it runs as the server. *)
Definition main (fuel : nat) (a : args) (backlog : list sock) : M unit :=
  match a with
  | Server => run_server fuel backlog ;; ret tt
  | Get file => get_files fuel file
  | Put file =>
      every <- all_isfile file ;;
      if negb every then
        print (Text (py "Not all of the given files exist, not trying"))
      else put_files fuel file
  end.

(** [m], run on the files [fs], keeps them and does not raise
    FileNotFoundError. *)
Definition finds_files {A : Type} (fs : gmap pystr bytes) (m : M A) : Prop :=
  forall w, files w = fs ->
    fst (m w) <> Raise FileNotFoundError /\ files (snd (m w)) = fs.

(** * Properties *)

(** ** The file system *)

Lemma split_plain name :
  existsb (Z.eqb slash) name = false -> split name = [name].
Proof.
  induction name as [|c name IH]; [reflexivity|]. cbn [existsb split].
  intros H. apply orb_false_iff in H as [Hc Hrest].
  rewrite Z.eqb_sym, Hc, (IH Hrest). reflexivity.
Qed.

Lemma plain_inv name :
  plain name = true ->
  exists bs, fsencode name = Ok bs
    /\ existsb (Z.eqb 0) name = false
    /\ existsb (Z.eqb slash) name = false
    /\ name <> [] /\ name <> [46] /\ name <> [46; 46]
    /\ len bs <= 255.
Proof.
  unfold plain. destruct (fsencode name) as [bs| |]; try discriminate.
  intros H. exists bs.
  repeat (apply andb_true_iff in H as [H ?]).
  repeat match goal with
         | H : negb _ = true |- _ => apply negb_true_iff in H
         | H : bool_decide _ = false |- _ => apply bool_decide_eq_false_1 in H
         end.
  repeat split; try assumption. lia.
Qed.

Lemma name_error_plain name : plain name = true -> name_error name = None.
Proof.
  intros H. destruct (plain_inv name H) as (bs & E & H0 & _ & Hn & _ & _ & Hl).
  unfold name_error. rewrite E, H0.
  rewrite bool_decide_eq_false_2 by exact Hn.
  destruct (Z.leb_spec 4096 (len bs)); [lia | reflexivity].
Qed.

Lemma walk_plain fs name :
  plain name = true ->
  walk fs (split name)
  = match fs !! name with
    | Some data => Reg name data
    | None => if is_dir fs [name] then Dir [name] else Vac name
    end.
Proof.
  intros H. destruct (plain_inv name H) as (bs & E & _ & Hs & Hn & Hd & Hdd & Hl).
  rewrite (split_plain name Hs). unfold walk. cbn [foldl step].
  rewrite !bool_decide_eq_false_2 by assumption. cbn [orb].
  unfold fslen. rewrite E.
  destruct (Z.ltb_spec 255 (len bs)); [lia | reflexivity].
Qed.

Lemma open_rb_plain fs name :
  plain name = true ->
  open_rb fs name
  = match fs !! name with
    | Some data => Ok data
    | None =>
        Raise (if is_dir fs [name] then IsADirectoryError else FileNotFoundError)
    end.
Proof.
  intros H. unfold open_rb. rewrite (name_error_plain name H), (walk_plain fs name H).
  destruct (fs !! name); [reflexivity|]. destruct (is_dir fs [name]); reflexivity.
Qed.

(** Reading the name of an entry gives the entry. *)
Lemma contents_plain fs name : plain name = true -> contents fs name = fs !! name.
Proof.
  intros H. unfold contents. rewrite (open_rb_plain fs name H).
  destruct (fs !! name); reflexivity.
Qed.

Lemma isfile_eq name w :
  isfile name w = (Ok (bool_decide (is_Some (contents (files w) name))), w).
Proof.
  unfold isfile, contents, open_rb. f_equal. f_equal.
  destruct (name_error name).
  - symmetry. apply bool_decide_eq_false_2. intros [data H]. discriminate.
  - destruct (walk (files w) (split name)); symmetry;
      (apply bool_decide_eq_true_2; eexists; reflexivity)
      || (apply bool_decide_eq_false_2; intros [data H]; discriminate).
Qed.

Lemma read_file_eq name data w :
  contents (files w) name = Some data -> read_file name w = (Ok data, w).
Proof.
  unfold read_file, contents. intros H.
  destruct (open_rb (files w) name); congruence.
Qed.

Lemma names_directory_plain name :
  plain name = true -> names_directory (split name) = false.
Proof.
  intros H. destruct (plain_inv name H) as (bs & _ & _ & Hs & Hn & _).
  rewrite (split_plain name Hs). unfold names_directory. cbn [last].
  rewrite bool_decide_eq_false_2; [reflexivity|]. congruence.
Qed.

Lemma open_wb_plain fs name data :
  plain name = true ->
  open_wb fs name data
  = match fs !! name with
    | Some _ => Ok (<[name := data]> fs)
    | None =>
        if is_dir fs [name] then Raise IsADirectoryError
        else Ok (<[name := data]> fs)
    end.
Proof.
  intros H. unfold open_wb.
  rewrite (name_error_plain name H), (names_directory_plain name H),
    (walk_plain fs name H).
  destruct (fs !! name); [reflexivity|]. destruct (is_dir fs [name]); reflexivity.
Qed.

(** Saving under the name of an entry, where no directory has that
    name, writes the entry. *)
Lemma save_file_eq name data s fs so :
  plain name = true -> is_dir fs [name] = false ->
  save_file name data (World s fs so) = (Ok tt, World s (<[name := data]> fs) so).
Proof.
  intros H Hd. unfold save_file. cbn [files conn stdout].
  rewrite (open_wb_plain fs name data H), Hd.
  destruct (fs !! name); reflexivity.
Qed.


(** *** Names with directories in them *)



















Lemma key_plain name : plain name = true -> key name = name.
Proof.
  intros H. destruct (plain_inv name H) as (bs & _ & _ & Hs & Hn & Hd & Hdd & _).
  unfold key. rewrite (split_plain name Hs). cbn [foldl]. unfold lex_step.
  rewrite !bool_decide_eq_false_2 by assumption. reflexivity.
Qed.

(** The name of an entry is writable unless it is that of a
    directory. *)
Lemma writable_plain fs name :
  plain name = true -> is_dir fs [name] = false -> writable fs name = true.
Proof.
  intros Hp Hd. unfold writable. rewrite (open_wb_plain fs name [] Hp), Hd.
  destruct (fs !! name); reflexivity.
Qed.








(** ** Bytes and fixed layouts *)

Lemma Z_of_byte_range b : 0 <= Z_of_byte b < 256.
Proof.
  unfold Z_of_byte. pose proof (Byte.to_N_bounded b) as H.
  split; [apply N2Z.is_nonneg | lia].
Qed.

Lemma Z_of_byte_of_Z z : Z_of_byte (byte_of_Z z) = z mod 256.
Proof.
  unfold Z_of_byte, byte_of_Z.
  assert (Hr : 0 <= z mod 256 < 256) by (apply Z.mod_pos_bound; lia).
  destruct (Byte.of_N (Z.to_N (z mod 256))) as [b|] eqn:E.
  - apply Byte.to_of_N in E. rewrite E. rewrite Z2N.id; lia.
  - apply Byte.of_N_None_iff in E. lia.
Qed.

Lemma byte_of_Z_of_byte b : byte_of_Z (Z_of_byte b) = b.
Proof.
  unfold byte_of_Z, Z_of_byte.
  pose proof (Byte.to_N_bounded b) as H.
  rewrite Z.mod_small by lia.
  rewrite N2Z.id, Byte.of_to_N. reflexivity.
Qed.

Lemma Z_of_byte_small z : 0 <= z < 256 -> Z_of_byte (byte_of_Z z) = z.
Proof. intros H. rewrite Z_of_byte_of_Z. apply Z.mod_small. exact H. Qed.

Lemma pack_i_ok v :
  int32_min <= v <= int32_max -> pack_i v = Ok (int32_le v).
Proof.
  intros [H1 H2]. unfold pack_i.
  destruct (Z.leb_spec int32_min v); [|lia].
  destruct (Z.leb_spec v int32_max); [|lia].
  reflexivity.
Qed.

Lemma pack_i_out_of_range v :
  v < int32_min \/ int32_max < v -> pack_i v = Raise StructError.
Proof.
  intros H. unfold pack_i.
  destruct (Z.leb_spec int32_min v), (Z.leb_spec v int32_max);
    simpl; try reflexivity; lia.
Qed.

Lemma unpack_int32_le v :
  int32_min <= v <= int32_max -> unpack_i (int32_le v) = Ok v.
Proof.
  unfold int32_min, int32_max, int32_le, unpack_i. intros H.
  rewrite !Z_of_byte_of_Z. f_equal.
  change (2 ^ 8) with 256. change (2 ^ 16) with 65536.
  change (2 ^ 24) with 16777216. change (2 ^ 31) with 2147483648 in *.
  change (2 ^ 32) with 4294967296.
  match goal with |- (if ?c then _ else _) = _ => destruct c eqn:E end.
  - apply Z.ltb_lt in E. Z.to_euclidean_division_equations. lia.
  - apply Z.ltb_ge in E. Z.to_euclidean_division_equations. lia.
Qed.

Lemma length_int32_le v : length (int32_le v) = 4%nat.
Proof. reflexivity. Qed.

(** ** The UTF-8 codec *)

Ltac settle_tests :=
  repeat match goal with
  | |- context [Z.ltb ?a ?b] =>
      first [ rewrite (proj2 (Z.ltb_lt a b)) by lia
            | rewrite (proj2 (Z.ltb_ge a b)) by lia ]
  | |- context [Z.leb ?a ?b] =>
      first [ rewrite (proj2 (Z.leb_le a b)) by lia
            | rewrite (proj2 (Z.leb_gt a b)) by lia ]
  end.

Lemma decode_2 q r rest :
  2 <= q < 32 -> 0 <= r < 64 ->
  decode (byte_of_Z (192 + q) :: byte_of_Z (128 + r) :: rest)
  = result_map (cons (64 * q + r)) (decode rest).
Proof.
  intros Hq Hr. cbn [decode]. unfold is_cont, cont_bits.
  rewrite !Z_of_byte_small by lia.
  settle_tests. cbn [andb]. do 2 f_equal. lia.
Qed.

Lemma decode_3 q r1 r0 rest :
  0 <= q < 16 -> 0 <= r1 < 64 -> 0 <= r0 < 64 ->
  2048 <= 4096 * q + 64 * r1 + r0 ->
  ~ 55296 <= 4096 * q + 64 * r1 + r0 <= 57343 ->
  decode (byte_of_Z (224 + q) :: byte_of_Z (128 + r1) :: byte_of_Z (128 + r0) :: rest)
  = result_map (cons (4096 * q + 64 * r1 + r0)) (decode rest).
Proof.
  intros Hq Hr1 Hr0 Hlo Hs. cbn [decode]. unfold is_cont, cont_bits, is_surrogate.
  rewrite !Z_of_byte_small by lia.
  replace ((224 + q - 224) * 4096 + (128 + r1 - 128) * 64 + (128 + r0 - 128))
    with (4096 * q + 64 * r1 + r0) by lia.
  settle_tests. cbn [andb negb].
  destruct (Z.leb_spec 55296 (4096 * q + 64 * r1 + r0)),
           (Z.leb_spec (4096 * q + 64 * r1 + r0) 57343); cbn [andb negb];
    try reflexivity; lia.
Qed.

Lemma decode_4 q r2 r1 r0 rest :
  0 <= q < 8 -> 0 <= r2 < 64 -> 0 <= r1 < 64 -> 0 <= r0 < 64 ->
  65536 <= 262144 * q + 4096 * r2 + 64 * r1 + r0 <= 1114111 ->
  decode (byte_of_Z (240 + q) :: byte_of_Z (128 + r2) :: byte_of_Z (128 + r1)
          :: byte_of_Z (128 + r0) :: rest)
  = result_map (cons (262144 * q + 4096 * r2 + 64 * r1 + r0)) (decode rest).
Proof.
  intros Hq Hr2 Hr1 Hr0 Hc. cbn [decode]. unfold is_cont, cont_bits.
  rewrite !Z_of_byte_small by lia.
  replace ((240 + q - 240) * 262144 + (128 + r2 - 128) * 4096
           + (128 + r1 - 128) * 64 + (128 + r0 - 128))
    with (262144 * q + 4096 * r2 + 64 * r1 + r0) by lia.
  settle_tests. reflexivity.
Qed.

(** [is_scalar] as a proposition. *)
Lemma is_scalar_spec c :
  is_scalar c = true <-> 0 <= c <= 1114111 /\ ~ 55296 <= c <= 57343.
Proof.
  unfold is_scalar, is_surrogate.
  destruct (Z.leb_spec 0 c), (Z.leb_spec c 1114111),
           (Z.leb_spec 55296 c), (Z.leb_spec c 57343);
    cbn [andb negb]; split; intros; (lia || easy).
Qed.

Lemma split_2 c : c = 64 * (c / 64) + c mod 64.
Proof. Z.to_euclidean_division_equations. lia. Qed.

Lemma split_3 c : c = 4096 * (c / 4096) + 64 * ((c / 64) mod 64) + c mod 64.
Proof. Z.to_euclidean_division_equations. lia. Qed.

Lemma split_4 c :
  c = 262144 * (c / 262144) + 4096 * ((c / 4096) mod 64)
      + 64 * ((c / 64) mod 64) + c mod 64.
Proof. Z.to_euclidean_division_equations. lia. Qed.

Lemma decode_encode_char c bs rest :
  encode_char c = Ok bs ->
  decode (bs ++ rest) = result_map (cons c) (decode rest).
Proof.
  unfold encode_char. intros H.
  destruct (is_scalar c) eqn:Hs; cbn [negb] in H; [|discriminate].
  apply is_scalar_spec in Hs. destruct Hs as [Hr Hs].
  destruct (Z.ltb_spec c 128) as [H1|H1].
  { injection H as <-. cbn [app decode].
    rewrite Z_of_byte_small by lia.
    rewrite (proj2 (Z.ltb_lt c 128)) by lia. reflexivity. }
  destruct (Z.ltb_spec c 2048) as [H2|H2].
  { injection H as <-. cbn [app].
    rewrite (split_2 c) at 3.
    apply decode_2; Z.to_euclidean_division_equations; lia. }
  destruct (Z.ltb_spec c 65536) as [H3|H3].
  { injection H as <-. cbn [app].
    rewrite (split_3 c) at 4.
    apply decode_3; rewrite <- ?split_3;
      try lia; Z.to_euclidean_division_equations; lia. }
  injection H as <-. cbn [app].
  rewrite (split_4 c) at 5.
  apply decode_4; rewrite <- ?split_4;
    try lia; Z.to_euclidean_division_equations; lia.
Qed.

Lemma decode_encode s bs rest :
  encode s = Ok bs ->
  decode (bs ++ rest) = result_map (app s) (decode rest).
Proof.
  revert bs. induction s as [|c s IH]; intros bs H; cbn [encode] in H.
  - injection H as <-. cbn [app]. destruct (decode rest); reflexivity.
  - destruct (encode_char c) as [bc| |] eqn:Hc; try discriminate.
    destruct (encode s) as [bs'| |] eqn:Hs; try discriminate.
    injection H as <-. rewrite <- app_assoc.
    rewrite (decode_encode_char _ _ _ Hc), (IH _ eq_refl).
    destruct (decode rest); reflexivity.
Qed.

Lemma decode_encode_all s bs :
  encode s = Ok bs -> decode bs = Ok s.
Proof.
  intros H. rewrite <- (app_nil_r bs), (decode_encode _ _ _ H).
  cbn. rewrite app_nil_r. reflexivity.
Qed.

(** ** The monad *)

Lemma bind_ok {A B} (m : M A) (k : A -> M B) w a w' :
  m w = (Ok a, w') -> bind m k w = k a w'.
Proof. intros H. unfold bind. rewrite H. reflexivity. Qed.

Lemma bind_raise {A B} (m : M A) (k : A -> M B) w e w' :
  m w = (Raise e, w') -> bind m k w = (Raise e, w').
Proof. intros H. unfold bind. rewrite H. reflexivity. Qed.

Lemma bind_hang {A B} (m : M A) (k : A -> M B) w w' :
  m w = (Hang, w') -> bind m k w = (Hang, w').
Proof. intros H. unfold bind. rewrite H. reflexivity. Qed.

Lemma len_app {A} (l1 l2 : list A) : len (l1 ++ l2) = len l1 + len l2.
Proof. unfold len. rewrite length_app. lia. Qed.

Lemma len_nonneg {A} (l : list A) : 0 <= len l.
Proof. unfold len. lia. Qed.

(** ** [recv] and [recv_all] *)

(** Whatever [recv] returns was at the head of the stream, and nothing
    but the stream position changes. *)
Lemma recv_inv n w got w' :
  recv n w = (Ok got, w') ->
  inbuf (conn w) = got ++ inbuf (conn w')
  /\ len got <= n
  /\ outbuf (conn w') = outbuf (conn w)
  /\ files w' = files w /\ stdout w' = stdout w.
Proof.
  unfold recv. destruct (Z.ltb_spec n 0) as [Hn|Hn]; [discriminate|].
  intros H. injection H as <- <-. cbn.
  rewrite firstn_skipn. repeat split; try reflexivity.
  unfold len. rewrite length_firstn.
  destruct (chunks (conn w)); lia.
Qed.

Lemma recv_not_hang n w : fst (recv n w) <> Hang.
Proof. unfold recv. destruct (n <? 0); discriminate. Qed.

Lemma recv_all_loop_inv fuel n : forall data w d w',
  recv_all_loop fuel n data w = (Ok d, w') ->
  exists more, d = data ++ more
    /\ inbuf (conn w) = more ++ inbuf (conn w')
    /\ len d = n
    /\ outbuf (conn w') = outbuf (conn w)
    /\ files w' = files w /\ stdout w' = stdout w.
Proof.
  induction fuel as [|fuel IH]; intros data w d w' H; cbn [recv_all_loop] in H.
  - destruct (Z.eqb_spec (len data) n) as [E|E]; [|discriminate].
    injection H as <- <-. exists []. rewrite app_nil_r. repeat split; auto.
  - destruct (Z.eqb_spec (len data) n) as [E|E].
    + injection H as <- <-. exists []. rewrite app_nil_r. repeat split; auto.
    + unfold bind in H.
      destruct (recv n w) as [[got| |] w1] eqn:Hr; try discriminate.
      apply recv_inv in Hr. destruct Hr as (Hi & _ & Ho & Hf & Hs).
      apply IH in H. destruct H as (more & -> & Hi' & Hl & Ho' & Hf' & Hs').
      exists (got ++ more). rewrite Hi, Hi', !app_assoc.
      repeat split; congruence.
Qed.

Lemma recv_all_inv fuel n w d w' :
  recv_all fuel n w = (Ok d, w') ->
  len d = n
  /\ inbuf (conn w) = d ++ inbuf (conn w')
  /\ outbuf (conn w') = outbuf (conn w)
  /\ files w' = files w /\ stdout w' = stdout w.
Proof.
  unfold recv_all, bind. intros H.
  destruct (recv n w) as [[got| |] w1] eqn:Hr; try discriminate.
  apply recv_inv in Hr. destruct Hr as (Hi & _ & Ho & Hf & Hs).
  apply recv_all_loop_inv in H.
  destruct H as (more & -> & Hi' & Hl & Ho' & Hf' & Hs').
  rewrite Hi, Hi', app_assoc. repeat split; congruence.
Qed.

(** A stream that ends before [n] bytes have come keeps the loop
    turning: every budget is used up. *)

(** A stream that ends before [n] bytes have come keeps the loop
    turning: every budget is used up. *)
Lemma recv_all_loop_starved fuel n : forall data w,
  len data + len (inbuf (conn w)) < n ->
  fst (recv_all_loop fuel n data w) = Hang.
Proof.
  induction fuel as [|fuel IH]; intros data w H; cbn [recv_all_loop];
    pose proof (len_nonneg (inbuf (conn w)));
    destruct (Z.eqb_spec (len data) n) as [E|E]; try lia; [reflexivity|].
  unfold bind. destruct (recv n w) as [[got| |] w1] eqn:Hr.
  - apply recv_inv in Hr. destruct Hr as (Hi & _).
    apply IH. rewrite Hi, len_app in H. rewrite len_app. lia.
  - unfold recv in Hr. pose proof (len_nonneg data).
    destruct (Z.ltb_spec n 0); [lia | discriminate].
  - reflexivity.
Qed.

Lemma recv_all_starved fuel n w :
  len (inbuf (conn w)) < n -> fst (recv_all fuel n w) = Hang.
Proof.
  intros H. unfold recv_all, bind.
  pose proof (len_nonneg (inbuf (conn w))).
  destruct (recv n w) as [[got| |] w1] eqn:Hr.
  - apply recv_inv in Hr. destruct Hr as (Hi & _).
    apply recv_all_loop_starved. rewrite Hi, len_app in H. lia.
  - unfold recv in Hr. destruct (Z.ltb_spec n 0); [lia | discriminate].
  - reflexivity.
Qed.

(** On a connection that hands the bytes over unsplit, the first
    [recv] already returns all of them. *)
Lemma recv_exact bs rest out cl fs so :
  recv (len bs) (World (Sock (bs ++ rest) [] out cl) fs so)
  = (Ok bs, World (Sock rest [] out cl) fs so).
Proof.
  unfold recv. pose proof (len_nonneg bs) as Hn.
  destruct (Z.ltb_spec (len bs) 0); [lia|].
  cbn [conn inbuf chunks outbuf closed set_conn files stdout tail].
  unfold len. rewrite Nat2Z.id, take_app_length, drop_app_length.
  reflexivity.
Qed.

Lemma recv_all_exact fuel bs rest out cl fs so :
  recv_all fuel (len bs) (World (Sock (bs ++ rest) [] out cl) fs so)
  = (Ok bs, World (Sock rest [] out cl) fs so).
Proof.
  unfold recv_all. rewrite (bind_ok _ _ _ _ _ (recv_exact _ _ _ _ _ _)).
  destruct fuel; cbn [recv_all_loop]; rewrite Z.eqb_refl; reflexivity.
Qed.

Lemma recv_all_negative fuel n w :
  n < 0 -> recv_all fuel n w = (Raise ValueError, w).
Proof.
  intros H. unfold recv_all, bind, recv.
  destruct (Z.ltb_spec n 0); [reflexivity | lia].
Qed.

Arguments int32_le : simpl never.

Lemma bind_lift_ok {A B} (r : result A) (k : A -> M B) w a :
  r = Ok a -> bind (lift r) k w = k a w.
Proof. intros ->. reflexivity. Qed.

Lemma bind_lift_raise {A B} (r : result A) (k : A -> M B) w e :
  r = Raise e -> bind (lift r) k w = (Raise e, w).
Proof. intros ->. reflexivity. Qed.

(** ** Reading and writing fixed layouts *)

Lemma recv_int fuel v rest out cl fs so :
  int32_min <= v <= int32_max ->
  recv_single_value fuel Fmt_i (World (Sock (int32_le v ++ rest) [] out cl) fs so)
  = (Ok v, World (Sock rest [] out cl) fs so).
Proof.
  intros Hv. unfold recv_single_value, recv_formatted_data.
  change (calcsize Fmt_i) with (len (int32_le v)).
  rewrite (bind_ok _ _ _ _ _ (recv_all_exact _ _ _ _ _ _ _)).
  unfold lift. cbn [unpack]. rewrite unpack_int32_le by exact Hv. reflexivity.
Qed.

Lemma recv_int_raw fuel b0 b1 b2 b3 rest out cl fs so :
  recv_single_value fuel Fmt_i
    (World (Sock (b0 :: b1 :: b2 :: b3 :: rest) [] out cl) fs so)
  = (unpack_i [b0; b1; b2; b3], World (Sock rest [] out cl) fs so).
Proof.
  unfold recv_single_value, recv_formatted_data.
  change (calcsize Fmt_i) with (len [b0; b1; b2; b3]).
  change (b0 :: b1 :: b2 :: b3 :: rest) with ([b0; b1; b2; b3] ++ rest).
  rewrite (bind_ok _ _ _ _ _ (recv_all_exact _ _ _ _ _ _ _)).
  reflexivity.
Qed.

Lemma recv_bool fuel b rest out cl fs so :
  recv_single_value fuel Fmt_b (World (Sock (b :: rest) [] out cl) fs so)
  = (Ok (negb (Z_of_byte b =? 0)), World (Sock rest [] out cl) fs so).
Proof.
  unfold recv_single_value, recv_formatted_data.
  change (calcsize Fmt_b) with (len [b]).
  change (b :: rest) with ([b] ++ rest).
  rewrite (bind_ok _ _ _ _ _ (recv_all_exact _ _ _ _ _ _ _)).
  reflexivity.
Qed.

Lemma send_bool_ok v inb ch out cl fs so :
  send_bool v (World (Sock inb ch out cl) fs so)
  = (Ok tt, World (Sock inb ch (out ++ [if v then x01 else x00]) cl) fs so).
Proof. reflexivity. Qed.

Lemma sendall_ok data inb ch out cl fs so :
  sendall data (World (Sock inb ch out cl) fs so)
  = (Ok tt, World (Sock inb ch (out ++ data) cl) fs so).
Proof. reflexivity. Qed.

(** ** Strings on the wire *)

Lemma encode_char_scalar c :
  is_scalar c = true -> exists bs, encode_char c = Ok bs.
Proof.
  intros H. unfold encode_char. rewrite H. cbn [negb].
  destruct (c <? 128); [eauto|].
  destruct (c <? 2048); [eauto|].
  destruct (c <? 65536); eauto.
Qed.

Lemma encode_scalars s :
  Forall (fun c => is_scalar c = true) s -> encode s = Ok (utf8 s).
Proof.
  induction 1 as [|c s Hc Hs IH]; [reflexivity|].
  destruct (encode_char_scalar c Hc) as [bc Hbc].
  unfold utf8. cbn [encode]. rewrite Hbc, IH. reflexivity.
Qed.

Lemma encode_sendable s : sendable s -> encode s = Ok (utf8 s).
Proof. intros [H _]. apply encode_scalars. exact H. Qed.

Lemma len_utf8_range s :
  sendable s -> int32_min <= len (utf8 s) <= int32_max.
Proof.
  intros [_ H]. pose proof (len_nonneg (utf8 s)).
  unfold int32_min. lia.
Qed.

Lemma send_str_ok s inb ch out cl fs so :
  sendable s ->
  send_str s (World (Sock inb ch out cl) fs so)
  = (Ok tt, World (Sock inb ch (out ++ frame (utf8 s)) cl) fs so).
Proof.
  intros Hs. unfold send_str.
  rewrite (bind_lift_ok _ _ _ _ (encode_sendable _ Hs)).
  cbn [pack].
  rewrite (bind_lift_ok _ _ _ _ (pack_i_ok _ (len_utf8_range _ Hs))).
  reflexivity.
Qed.

Lemma recv_str_ok fuel s rest out cl fs so :
  sendable s ->
  recv_str fuel (World (Sock (frame (utf8 s) ++ rest) [] out cl) fs so)
  = (Ok s, World (Sock rest [] out cl) fs so).
Proof.
  intros Hs. unfold recv_str, frame. rewrite <- app_assoc.
  rewrite (bind_ok _ _ _ _ _ (recv_int _ _ _ _ _ _ _ (len_utf8_range _ Hs))).
  rewrite (bind_ok _ _ _ _ _ (recv_all_exact _ _ _ _ _ _ _)).
  unfold lift. rewrite (decode_encode_all _ _ (encode_sendable _ Hs)).
  reflexivity.
Qed.

Lemma send_strs_ok strings : forall inb ch out cl fs so,
  Forall sendable strings ->
  for_in strings (fun string _ => send_str string) tt
    (World (Sock inb ch out cl) fs so)
  = (Ok tt, World (Sock inb ch (out ++ frames strings) cl) fs so).
Proof.
  induction strings as [|s strings IH]; intros inb ch out cl fs so H.
  - cbn. rewrite app_nil_r. reflexivity.
  - inversion H as [|? ? Hs Hrest]; subst. cbn [for_in frames flat_map].
    rewrite (bind_ok _ _ _ _ _ (send_str_ok _ _ _ _ _ _ _ Hs)).
    rewrite IH by exact Hrest. rewrite <- app_assoc. reflexivity.
Qed.

Lemma len_range {A} (l : list A) :
  len l <= int32_max -> int32_min <= len l <= int32_max.
Proof. pose proof (len_nonneg l). unfold int32_min. lia. Qed.

Lemma send_str_list_ok strings inb ch out cl fs so :
  len strings <= int32_max -> Forall sendable strings ->
  send_str_list strings (World (Sock inb ch out cl) fs so)
  = (Ok tt, World (Sock inb ch (out ++ int32_le (len strings) ++ frames strings) cl)
                  fs so).
Proof.
  intros Hn Hs. unfold send_str_list. cbn [pack].
  rewrite (bind_lift_ok _ _ _ _ (pack_i_ok _ (len_range _ Hn))).
  rewrite (bind_ok _ _ _ _ _ (sendall_ok _ _ _ _ _ _ _)).
  rewrite send_strs_ok by exact Hs. rewrite <- app_assoc. reflexivity.
Qed.

Lemma recv_strs_ok fuel strings : forall (idx : list nat) acc rest out cl fs so,
  Forall sendable strings -> length idx = length strings ->
  for_in idx (fun _ lst => bind (recv_str fuel) (fun s => ret (lst ++ [s]))) acc
    (World (Sock (frames strings ++ rest) [] out cl) fs so)
  = (Ok (acc ++ strings), World (Sock rest [] out cl) fs so).
Proof.
  induction strings as [|s strings IH]; intros idx acc rest out cl fs so H Hl;
    destruct idx as [|i idx]; try discriminate.
  - cbn. rewrite app_nil_r. reflexivity.
  - inversion H as [|? ? Hs Hrest]; subst.
    cbn [for_in frames flat_map]. rewrite <- app_assoc.
    rewrite (bind_ok _ _ _ (acc ++ [s]) (World (Sock (frames strings ++ rest) [] out cl) fs so)).
    + rewrite IH by (auto; cbn in Hl; lia). rewrite <- app_assoc. reflexivity.
    + rewrite (bind_ok _ _ _ _ _ (recv_str_ok _ _ _ _ _ _ _ Hs)). reflexivity.
Qed.

Lemma range_len {A} (l : list A) : length (range (len l)) = length l.
Proof. unfold range, len. rewrite length_seq, Nat2Z.id. reflexivity. Qed.

Lemma recv_str_list_ok fuel strings rest out cl fs so :
  len strings <= int32_max -> Forall sendable strings ->
  recv_str_list fuel
    (World (Sock ((int32_le (len strings) ++ frames strings) ++ rest) [] out cl) fs so)
  = (Ok strings, World (Sock rest [] out cl) fs so).
Proof.
  intros Hn Hs. unfold recv_str_list. rewrite <- app_assoc.
  rewrite (bind_ok _ _ _ _ _ (recv_int _ _ _ _ _ _ _ (len_range _ Hn))).
  rewrite (recv_strs_ok fuel strings) by (auto using range_len).
  reflexivity.
Qed.

(** C7 (as amended): a list of at most 2^31 - 1 strings, each of them
    made of Unicode scalar values and with a UTF-8 encoding of at most
    2^31 - 1 bytes, is written by [send_str_list] without error, and
    [recv_str_list], reading the bytes written (whatever follows them
    on the stream) from a transport that hands every read all the
    bytes it asks for, returns the same list in the same order and
    leaves what follows unread. *)
Theorem str_list_round_trip fuel (strings : list pystr) rest fs fs' :
  len strings <= int32_max ->
  Forall sendable strings ->
  fst (send_str_list strings (start [] fs)) = Ok tt
  /\ recv_str_list fuel
       (start (sent (snd (send_str_list strings (start [] fs))) ++ rest) fs')
     = (Ok strings, start rest fs').
Proof.
  intros Hn Hs. unfold start, fresh.
  rewrite send_str_list_ok by assumption. split; [reflexivity|].
  cbn [snd sent conn outbuf app]. apply recv_str_list_ok; assumption.
Qed.

Lemma str_list_round_trip_witness :
  let strings := [py "a.txt"; []; [8364; 128512]] in
  len strings <= int32_max /\ Forall sendable strings /\
  fst (send_str_list strings (start [] ∅)) = Ok tt
  /\ recv_str_list 0
       (start (sent (snd (send_str_list strings (start [] ∅))) ++ [x2a]) ∅)
     = (Ok strings, start [x2a] ∅).
Proof.
  assert (Hn : len [py "a.txt"; []; [8364; 128512]] <= int32_max)
    by (vm_compute; discriminate).
  assert (Hs : Forall sendable [py "a.txt"; []; [8364; 128512]])
    by (repeat constructor; vm_compute; discriminate).
  split; [exact Hn | split; [exact Hs |]].
  exact (str_list_round_trip 0 [py "a.txt"; []; [8364; 128512]] [x2a] ∅ ∅ Hn Hs).
Defined.

(** ** [recv_all]: what it returns and when *)

Lemma recv_all_unsplit fuel n w :
  chunks (conn w) = [] -> 0 <= n <= len (inbuf (conn w)) ->
  recv_all fuel n w
  = (Ok (take (Z.to_nat n) (inbuf (conn w))),
     set_conn (Sock (drop (Z.to_nat n) (inbuf (conn w))) []
                    (outbuf (conn w)) (closed (conn w))) w).
Proof.
  destruct w as [[inb ch out cl] fs so]. cbn. intros -> [H0 Hn].
  rewrite <- (take_drop (Z.to_nat n) inb) at 1.
  replace n with (len (take (Z.to_nat n) inb)) at 1.
  - apply recv_all_exact.
  - unfold len in *. rewrite length_take. lia.
Qed.

(** C2 (as amended): whenever [recv_all] returns, it returns exactly
    the first [n] bytes of the stream, [n] of them, and leaves the rest
    of the stream unread; on a connection that hands over unsplit the
    [n] bytes that are there, it does return them; and when the stream
    ends before [n] bytes have come, it neither returns nor raises an
    error: it keeps asking the closed stream, whatever the loop budget. *)
Theorem recv_all_exactly fuel n w :
  (forall data w', recv_all fuel n w = (Ok data, w') ->
     len data = n /\ inbuf (conn w) = data ++ inbuf (conn w'))
  /\ (chunks (conn w) = [] -> 0 <= n <= len (inbuf (conn w)) ->
      fst (recv_all fuel n w) = Ok (take (Z.to_nat n) (inbuf (conn w)))
      /\ inbuf (conn (snd (recv_all fuel n w)))
         = drop (Z.to_nat n) (inbuf (conn w)))
  /\ (len (inbuf (conn w)) < n -> fst (recv_all fuel n w) = Hang).
Proof.
  split; [|split].
  - intros data w' H. apply recv_all_inv in H. tauto.
  - intros Hc Hn. rewrite recv_all_unsplit by assumption. split; reflexivity.
  - apply recv_all_starved.
Qed.

Lemma recv_all_exactly_witness :
  (recv_all 0 2 (start [x01; x02; x03] ∅)
     = (Ok [x01; x02], start [x03] ∅) ->
   len [x01; x02] = 2
   /\ inbuf (conn (start [x01; x02; x03] ∅)) = [x01; x02] ++ [x03])
  /\ (fst (recv_all 0 2 (start [x01; x02; x03] ∅)) = Ok [x01; x02]
      /\ inbuf (conn (snd (recv_all 0 2 (start [x01; x02; x03] ∅)))) = [x03])
  /\ fst (recv_all 3 4 (start [x01; x02; x03] ∅)) = Hang.
Proof.
  split; [|split].
  - exact (proj1 (recv_all_exactly 0 2 (start [x01; x02; x03] ∅))
             [x01; x02] (start [x03] ∅)).
  - apply (proj1 (proj2 (recv_all_exactly 0 2 (start [x01; x02; x03] ∅))));
      [reflexivity | vm_compute; split; discriminate].
  - apply (proj2 (proj2 (recv_all_exactly 3 4 (start [x01; x02; x03] ∅)))).
    vm_compute. reflexivity.
Defined.

(** C2 as stated fails on a stream that ends early: one byte is sent,
    then the peer closes, and four bytes are asked for.  No budget makes
    [recv_all] return or raise. *)
Lemma recv_all_closed_stream :
  ~ exists fuel, fst (recv_all fuel 4 (start [x01] ∅)) <> Hang.
Proof.
  intros [fuel H]. apply H. apply recv_all_starved. vm_compute. reflexivity.
Qed.

(** Once more bytes than asked for have been gathered, the loop cannot
    end either. *)
Lemma recv_all_loop_overrun fuel n : forall data w,
  0 <= n < len data -> fst (recv_all_loop fuel n data w) = Hang.
Proof.
  induction fuel as [|fuel IH]; intros data w H; cbn [recv_all_loop];
    destruct (Z.eqb_spec (len data) n) as [E|E]; try lia; [reflexivity|].
  unfold bind. destruct (recv n w) as [[got| |] w1] eqn:Hr.
  - apply IH. rewrite len_app. pose proof (len_nonneg got). lia.
  - unfold recv in Hr. destruct (Z.ltb_spec n 0); [lia | discriminate].
  - reflexivity.
Qed.

(** Six bytes are there and four are asked for; the transport hands
    over two, and the second [recv] of four takes the remaining four:
    six bytes are held, and the loop never ends. *)
Example recv_all_overshoot fuel :
  fst (recv_all fuel 4
         (World (Sock [x01; x02; x03; x04; x05; x06] [1%nat] [] false) ∅ []))
  = Hang.
Proof.
  destruct fuel as [|fuel]; [reflexivity|].
  unfold recv_all, bind. cbn [recv_all_loop recv Z.ltb Z.compare conn chunks inbuf
    outbuf closed set_conn files stdout tail Nat.min Z.to_nat Pos.to_nat
    Pos.iter_op Nat.add take drop len length Z.of_nat Pos.of_succ_nat Pos.succ
    Z.eqb Pos.eqb app bind].
  apply recv_all_loop_overrun. vm_compute. split; [discriminate | reflexivity].
Qed.

(** ** A negative count *)

Lemma range_negative n : n < 0 -> range n = [].
Proof. intros H. destruct n; try lia. reflexivity. Qed.

(** A negative count that the transport hands over in one piece: when
    the next four bytes of the stream decode to a negative integer and
    the first [recv] returns all four, [recv_str_list] returns the
    empty list without error, and has read these four bytes and nothing
    more. *)
Theorem recv_str_list_negative_count fuel b0 b1 b2 b3 n rest out cl fs so :
  unpack_i [b0; b1; b2; b3] = Ok n ->
  n < 0 ->
  recv_str_list fuel
    (World (Sock (b0 :: b1 :: b2 :: b3 :: rest) [] out cl) fs so)
  = (Ok [], World (Sock rest [] out cl) fs so).
Proof.
  intros Hu Hn. unfold recv_str_list.
  erewrite bind_ok by (rewrite recv_int_raw, Hu; reflexivity).
  rewrite range_negative by exact Hn. reflexivity.
Qed.

Lemma recv_str_list_negative_count_witness :
  unpack_i [xff; xff; xff; xff] = Ok (-1)
  /\ -1 < 0
  /\ recv_str_list 0 (World (Sock [xff; xff; xff; xff; x2a] [] [] false) ∅ [])
     = (Ok [], World (Sock [x2a] [] [] false) ∅ []).
Proof.
  assert (Hu : unpack_i [xff; xff; xff; xff] = Ok (-1)) by reflexivity.
  assert (Hn : -1 < 0) by lia.
  split; [exact Hu | split; [exact Hn |]].
  exact (recv_str_list_negative_count 0 xff xff xff xff (-1) [x2a] [] false ∅ []
           Hu Hn).
Defined.

(** ** The version gate *)

Lemma with_conn_ok {A} (body : M A) w a inb ch out cl fs so :
  body w = (Ok a, World (Sock inb ch out cl) fs so) ->
  with_conn body w = (Ok a, World (Sock inb ch out true) fs so).
Proof. intros H. unfold with_conn. rewrite H. reflexivity. Qed.

(** C6: when the version read from the server is not 1, [get_files] and
    [put_files] alike return after printing the mismatch: nothing has
    been written on the stream, the files are what they were, and
    nothing but the four bytes of the version has been read. *)
Theorem version_gate fuel b0 b1 b2 b3 v rest out cl fs so filenames :
  unpack_i [b0; b1; b2; b3] = Ok v ->
  v <> 1 ->
  get_files fuel filenames
    (World (Sock (b0 :: b1 :: b2 :: b3 :: rest) [] out cl) fs so)
  = (Ok tt, World (Sock rest [] out true) fs (so ++ [wrong_version]))
  /\ put_files fuel filenames
       (World (Sock (b0 :: b1 :: b2 :: b3 :: rest) [] out cl) fs so)
     = (Ok tt, World (Sock rest [] out true) fs (so ++ [wrong_version])).
Proof.
  intros Hu Hv.
  assert (Hne : negb (v =? 1) = true)
    by (destruct (Z.eqb_spec v 1); [contradiction | reflexivity]).
  split; unfold get_files, put_files; eapply with_conn_ok;
    (erewrite bind_ok by (rewrite recv_int_raw, Hu; reflexivity));
    rewrite Hne; reflexivity.
Qed.

Lemma version_gate_witness :
  unpack_i [x02; x00; x00; x00] = Ok 2
  /\ 2 <> 1
  /\ get_files 0 [py "a.txt"]
       (World (Sock [x02; x00; x00; x00] [] [] false) ∅ [])
     = (Ok tt, World (Sock [] [] [] true) ∅ ([] ++ [wrong_version]))
  /\ put_files 0 [py "a.txt"]
       (World (Sock [x02; x00; x00; x00] [] [] false) ∅ [])
     = (Ok tt, World (Sock [] [] [] true) ∅ ([] ++ [wrong_version])).
Proof.
  assert (Hu : unpack_i [x02; x00; x00; x00] = Ok 2) by reflexivity.
  assert (Hv : 2 <> 1) by lia.
  split; [exact Hu | split; [exact Hv |]].
  exact (version_gate 0 x02 x00 x00 x00 2 [] [] false ∅ [] [py "a.txt"] Hu Hv).
Defined.

(** ** Frame rules *)

Section Frame.

Context {X : Type} (f : world -> X).

Lemma preserves_ret {A} (a : A) : preserves f (ret a).
Proof. intros w. reflexivity. Qed.

Lemma preserves_lift {A} (r : result A) : preserves f (lift r).
Proof. intros w. reflexivity. Qed.

Lemma preserves_bind {A B} (m : M A) (k : A -> M B) :
  preserves f m -> (forall a, preserves f (k a)) -> preserves f (bind m k).
Proof.
  intros Hm Hk w. unfold bind. specialize (Hm w).
  destruct (m w) as [[a|e|] w1]; cbn [snd] in *; [|assumption..].
  rewrite Hk. exact Hm.
Qed.

Lemma preserves_for_in {A S} (l : list A) (body : A -> S -> M S) :
  (forall x acc, preserves f (body x acc)) ->
  forall acc, preserves f (for_in l body acc).
Proof.
  intros Hb. induction l as [|x l IH]; intros acc; cbn [for_in].
  - apply preserves_ret.
  - apply preserves_bind; auto.
Qed.

Lemma preserves_if {A} (b : bool) (m1 m2 : M A) :
  preserves f m1 -> preserves f m2 -> preserves f (if b then m1 else m2).
Proof. destruct b; auto. Qed.

Lemma preserves_isfile name : preserves f (isfile name).
Proof. intros w. reflexivity. Qed.

Lemma preserves_read_file name : preserves f (read_file name).
Proof. intros w. reflexivity. Qed.

End Frame.

(** The three components of a world, one by one. *)

Lemma recv_files n : preserves files (recv n).
Proof. intros w. unfold recv. destruct (n <? 0); reflexivity. Qed.

Lemma recv_sent n : preserves sent (recv n).
Proof. intros w. unfold recv. destruct (n <? 0); reflexivity. Qed.

Lemma recv_stdout n : preserves stdout (recv n).
Proof. intros w. unfold recv. destruct (n <? 0); reflexivity. Qed.

Lemma sendall_files data : preserves files (sendall data).
Proof. intros w. reflexivity. Qed.

Lemma sendall_stdout data : preserves stdout (sendall data).
Proof. intros w. reflexivity. Qed.

Lemma save_file_sent name data : preserves sent (save_file name data).
Proof.
  intros w. unfold save_file.
  destruct (open_wb (files w) name data); reflexivity.
Qed.

Lemma save_file_stdout name data : preserves stdout (save_file name data).
Proof.
  intros w. unfold save_file.
  destruct (open_wb (files w) name data); reflexivity.
Qed.

Lemma print_files l : preserves files (print l).
Proof. intros w. reflexivity. Qed.

Lemma print_sent l : preserves sent (print l).
Proof. intros w. reflexivity. Qed.

Lemma with_conn_files {A} (body : M A) :
  preserves files body -> preserves files (with_conn body).
Proof.
  intros H w. unfold with_conn. specialize (H w).
  destruct (body w) as [[a|e|] w1]; exact H.
Qed.

Lemma with_conn_sent {A} (body : M A) :
  preserves sent body -> preserves sent (with_conn body).
Proof.
  intros H w. unfold with_conn. specialize (H w).
  destruct (body w) as [[a|e|] w1]; exact H.
Qed.

Lemma with_conn_stdout {A} (body : M A) :
  preserves stdout body -> preserves stdout (with_conn body).
Proof.
  intros H w. unfold with_conn. specialize (H w).
  destruct (body w) as [[a|e|] w1]; exact H.
Qed.

Create HintDb frame.
#[export] Hint Resolve preserves_ret preserves_lift preserves_isfile
  preserves_read_file recv_files recv_sent recv_stdout sendall_files
  sendall_stdout save_file_sent save_file_stdout print_files print_sent
  : frame.

(** Takes a goal [preserves f m] apart along the structure of [m]. *)
Ltac frame :=
  repeat first
    [ progress intros
    | apply preserves_bind
    | apply preserves_for_in
    | apply preserves_if
    | solve [auto with frame] ].

Lemma recv_all_loop_preserves {X} (f : world -> X) fuel n :
  preserves f (recv n) -> forall data, preserves f (recv_all_loop fuel n data).
Proof.
  intros Hr. induction fuel as [|fuel IH]; intros data; cbn [recv_all_loop];
    destruct (len data =? n); try apply preserves_ret.
  - intros w. reflexivity.
  - apply preserves_bind; auto.
Qed.

Lemma recv_all_preserves {X} (f : world -> X) fuel n :
  preserves f (recv n) -> preserves f (recv_all fuel n).
Proof.
  intros Hr. unfold recv_all. apply preserves_bind; [exact Hr|].
  intros data. apply recv_all_loop_preserves. exact Hr.
Qed.

Lemma recv_single_value_preserves {X} (f : world -> X) fuel frmt :
  (forall n, preserves f (recv n)) ->
  preserves f (recv_single_value fuel frmt).
Proof.
  intros Hr. unfold recv_single_value, recv_formatted_data.
  apply preserves_bind; [apply recv_all_preserves, Hr|].
  intros data. apply preserves_lift.
Qed.

Lemma recv_str_preserves {X} (f : world -> X) fuel :
  (forall n, preserves f (recv n)) -> preserves f (recv_str fuel).
Proof.
  intros Hr. unfold recv_str.
  apply preserves_bind; [apply recv_single_value_preserves, Hr|]. intros n.
  apply preserves_bind; [apply recv_all_preserves, Hr|]. intros data.
  apply preserves_lift.
Qed.

Lemma recv_str_list_preserves {X} (f : world -> X) fuel :
  (forall n, preserves f (recv n)) -> preserves f (recv_str_list fuel).
Proof.
  intros Hr. unfold recv_str_list.
  apply preserves_bind; [apply recv_single_value_preserves, Hr|]. intros n.
  apply preserves_for_in. intros _ lst.
  apply preserves_bind; [apply recv_str_preserves, Hr|]. intros s.
  apply preserves_ret.
Qed.


Lemma send_str_preserves {X} (f : world -> X) s :
  (forall data, preserves f (sendall data)) -> preserves f (send_str s).
Proof. intros Hs. unfold send_str. frame. Qed.


(** ** The server only reads in the get direction *)

(** One byte is asked for: the transport cannot split it. *)
Lemma recv_one w b rest :
  inbuf (conn w) = b :: rest ->
  recv 1 w
  = (Ok [b], set_conn (Sock rest (tail (chunks (conn w))) (outbuf (conn w))
                            (closed (conn w))) w).
Proof.
  intros H. unfold recv. rewrite H.
  change (1 <? 0) with false. change (Z.to_nat 1) with 1%nat. cbv iota.
  destruct (chunks (conn w)); reflexivity.
Qed.

Lemma recv_flag fuel w b rest :
  inbuf (conn w) = b :: rest ->
  fst (recv_single_value fuel Fmt_b w) = Ok (negb (Z_of_byte b =? 0)).
Proof.
  intros H. unfold recv_single_value, recv_formatted_data, recv_all.
  change (calcsize Fmt_b) with 1.
  unfold bind at 1. rewrite (bind_ok _ _ _ _ _ (recv_one _ _ _ H)).
  destruct fuel; reflexivity.
Qed.

Lemma with_conn_files_eq {A} (body : M A) w :
  files (snd (with_conn body w)) = files (snd (body w)).
Proof. unfold with_conn. destruct (body w) as [[a|e|] w1]; reflexivity. Qed.

Lemma pack_version : pack Fmt_i 1 = Ok (int32_le 1).
Proof. apply pack_i_ok. unfold int32_min, int32_max. lia. Qed.

Lemma sendall_eq data w :
  sendall data w
  = (Ok tt, set_conn (Sock (inbuf (conn w)) (chunks (conn w))
                           (outbuf (conn w) ++ data) (closed (conn w))) w).
Proof. reflexivity. Qed.

(** C9: when the direction flag the server reads is true (a get
    session), the files of the server are the same after
    [server_handle_request] as before, however the session goes on and
    however it ends. *)
Theorem server_get_keeps_files fuel w b rest :
  inbuf (conn w) = b :: rest ->
  Z_of_byte b <> 0 ->
  files (snd (server_handle_request fuel w)) = files w.
Proof.
  intros Hin Hb. unfold server_handle_request.
  rewrite with_conn_files_eq.
  rewrite (bind_lift_ok _ _ _ _ pack_version).
  rewrite (bind_ok _ _ _ _ _ (sendall_eq _ _)).
  set (w1 := set_conn _ w).
  assert (Hin1 : inbuf (conn w1) = b :: rest) by exact Hin.
  pose proof (recv_flag fuel w1 b rest Hin1) as Hflag.
  pose proof (recv_single_value_preserves files fuel Fmt_b recv_files w1) as Hf.
  unfold bind at 1.
  destruct (recv_single_value fuel Fmt_b w1) as [r w2].
  cbn [fst snd] in Hflag, Hf. subst r.
  destruct (Z.eqb_spec (Z_of_byte b) 0) as [E|_]; [contradiction|].
  cbn [negb].
  transitivity (files w2); [|exact Hf].
  generalize w2. change (preserves files
    (bind (recv_str_list fuel) (fun filenames =>
       for_in filenames (fun filename (_ : unit) =>
         bind (isfile filename) (fun present =>
           if present : bool then
             bind (read_file filename) (fun file_data =>
               bind (send_bool true) (fun _ =>
                 bind (lift (pack Fmt_i (len file_data))) (fun size =>
                   bind (sendall size) (fun _ => sendall file_data))))
           else ret tt)) tt))).
  apply preserves_bind; [apply recv_str_list_preserves, recv_files|].
  frame.
Qed.

Lemma server_get_keeps_files_witness :
  let w := World (Sock [x01; xff] [0%nat] [] false)
                 {[ py "a.txt" := [x68; x69] ]} [] in
  inbuf (conn w) = x01 :: [xff]
  /\ Z_of_byte x01 <> 0
  /\ files (snd (server_handle_request 3 w)) = files w.
Proof.
  set (w := World (Sock [x01; xff] [0%nat] [] false)
                  {[ py "a.txt" := [x68; x69] ]} []).
  assert (Hin : inbuf (conn w) = x01 :: [xff]) by reflexivity.
  assert (Hb : Z_of_byte x01 <> 0) by (vm_compute; discriminate).
  split; [exact Hin | split; [exact Hb |]].
  exact (server_get_keeps_files 3 w x01 [xff] Hin Hb).
Defined.

#[export] Hint Resolve recv_all_loop_preserves recv_all_preserves
  recv_single_value_preserves recv_str_preserves recv_str_list_preserves
  : frame.

(** ** Reads that find the stream at its end *)

Lemma recv_dry n out cl fs so :
  0 <= n ->
  recv n (World (Sock [] [] out cl) fs so)
  = (Ok [], World (Sock [] [] out cl) fs so).
Proof.
  intros Hn. unfold recv. destruct (Z.ltb_spec n 0); [lia|].
  cbn [conn inbuf chunks outbuf closed set_conn files stdout tail].
  rewrite take_nil, drop_nil. reflexivity.
Qed.

Lemma recv_all_loop_dry fuel n out cl fs so : forall data,
  0 <= n -> len data <> n ->
  recv_all_loop fuel n data (World (Sock [] [] out cl) fs so)
  = (Hang, World (Sock [] [] out cl) fs so).
Proof.
  induction fuel as [|fuel IH]; intros data Hn Hd; cbn [recv_all_loop];
    destruct (Z.eqb_spec (len data) n); try contradiction; [reflexivity|].
  rewrite (bind_ok _ _ _ _ _ (recv_dry _ _ _ _ _ Hn)).
  rewrite app_nil_r. apply IH; assumption.
Qed.

(** Fewer bytes than asked for, handed over unsplit, and then the end
    of the stream: [recv_all] takes them and never returns. *)
Lemma recv_all_short fuel n bs out cl fs so :
  len bs < n ->
  recv_all fuel n (World (Sock bs [] out cl) fs so)
  = (Hang, World (Sock [] [] out cl) fs so).
Proof.
  intros Hl. pose proof (len_nonneg bs) as H0. unfold recv_all.
  assert (Hr : recv n (World (Sock bs [] out cl) fs so)
               = (Ok bs, World (Sock [] [] out cl) fs so)).
  { unfold recv. destruct (Z.ltb_spec n 0); [lia|].
    cbn [conn inbuf chunks outbuf closed set_conn files stdout tail].
    rewrite take_ge, drop_ge by (unfold len in *; lia). reflexivity. }
  rewrite (bind_ok _ _ _ _ _ Hr). apply recv_all_loop_dry; lia.
Qed.

Lemma recv_single_value_short fuel frmt bs out cl fs so :
  len bs < calcsize frmt ->
  recv_single_value fuel frmt (World (Sock bs [] out cl) fs so)
  = (Hang, World (Sock [] [] out cl) fs so).
Proof.
  intros Hl. unfold recv_single_value, recv_formatted_data.
  apply bind_hang, recv_all_short, Hl.
Qed.

(** ** Reads that are handed a part of what they ask for *)

Lemma recv_piece n k first more out cl fs so ch :
  length first = S k -> len first <= n ->
  recv n (World (Sock (first ++ more) (k :: ch) out cl) fs so)
  = (Ok first, World (Sock more ch out cl) fs so).
Proof.
  intros Hk Hn. unfold recv, len in *.
  destruct (Z.ltb_spec n 0); [lia|]. cbn [conn chunks inbuf outbuf closed tail].
  replace (Nat.min (Z.to_nat n) (S k)) with (length first) by lia.
  unfold set_conn. cbn [files stdout].
  change firstn with (@take byte). change skipn with (@drop byte).
  rewrite take_app_length, drop_app_length. reflexivity.
Qed.

(** The transport would hand over at least as many bytes as are asked
    for: they all come at once. *)
Lemma recv_all_at_once fuel bs rest k ch out cl fs so :
  (length bs <= S k)%nat ->
  recv_all fuel (len bs) (World (Sock (bs ++ rest) (k :: ch) out cl) fs so)
  = (Ok bs, World (Sock rest ch out cl) fs so).
Proof.
  intros Hk. unfold recv_all.
  assert (Hr : recv (len bs) (World (Sock (bs ++ rest) (k :: ch) out cl) fs so)
               = (Ok bs, World (Sock rest ch out cl) fs so)).
  { unfold recv, len. destruct (Z.ltb_spec (Z.of_nat (length bs)) 0); [lia|].
    cbn [conn chunks inbuf outbuf closed tail].
    replace (Nat.min (Z.to_nat (Z.of_nat (length bs))) (S k)) with (length bs)
      by lia.
    unfold set_conn. cbn [files stdout].
    change firstn with (@take byte). change skipn with (@drop byte).
    rewrite take_app_length, drop_app_length. reflexivity. }
  rewrite (bind_ok _ _ _ _ _ Hr).
  destruct fuel; cbn [recv_all_loop]; rewrite Z.eqb_refl; reflexivity.
Qed.

Lemma recv_int_at_once fuel v rest k ch out cl fs so :
  int32_min <= v <= int32_max -> (3 <= k)%nat ->
  recv_single_value fuel Fmt_i
    (World (Sock (int32_le v ++ rest) (k :: ch) out cl) fs so)
  = (Ok v, World (Sock rest ch out cl) fs so).
Proof.
  intros Hv Hk. unfold recv_single_value, recv_formatted_data.
  change (calcsize Fmt_i) with (len (int32_le v)).
  assert (Hl : (length (int32_le v) <= S k)%nat)
    by (rewrite length_int32_le; lia).
  rewrite (bind_ok _ _ _ _ _ (recv_all_at_once _ _ _ _ _ _ _ _ _ Hl)).
  unfold lift. cbn [unpack]. rewrite unpack_int32_le by exact Hv. reflexivity.
Qed.


(** A first piece that is too short, and more than the missing bytes
    behind it: [recv_all] asks for the whole count again, holds too
    much, and never returns.  It touches neither the files nor the
    output. *)
Lemma recv_all_too_much fuel n k first more out cl fs so :
  length first = S k -> len first < n -> n - len first < len more ->
  exists w',
    recv_all fuel n (World (Sock (first ++ more) [k] out cl) fs so) = (Hang, w')
    /\ files w' = fs /\ stdout w' = so /\ sent w' = out.
Proof.
  intros Hk Hn Hm.
  pose proof (recv_all_preserves files fuel n (recv_files n)
                (World (Sock (first ++ more) [k] out cl) fs so)) as Hf.
  pose proof (recv_all_preserves stdout fuel n (recv_stdout n)
                (World (Sock (first ++ more) [k] out cl) fs so)) as Hso.
  pose proof (recv_all_preserves sent fuel n (recv_sent n)
                (World (Sock (first ++ more) [k] out cl) fs so)) as Hout.
  assert (Hh : fst (recv_all fuel n (World (Sock (first ++ more) [k] out cl) fs so))
               = Hang).
  { unfold recv_all. assert (Hle : len first <= n) by lia.
    rewrite (bind_ok _ _ _ _ _ (recv_piece n k first more out cl fs so [] Hk Hle)).
    destruct fuel as [|fuel]; cbn [recv_all_loop];
      destruct (Z.eqb_spec (len first) n) as [E|_]; try lia; [reflexivity|].
    unfold bind, recv. destruct (Z.ltb_spec n 0) as [Hneg|_].
    { pose proof (len_nonneg first). lia. }
    cbn [conn chunks inbuf].
    apply recv_all_loop_overrun. pose proof (len_nonneg first).
    rewrite len_app. unfold len in *. rewrite length_firstn. lia. }
  destruct (recv_all fuel n _) as [r w']. cbn [fst snd] in *. subst r.
  exists w'. auto.
Qed.

(** The same, when the second [recv] empties the stream: the bytes
    behind the value asked for are gone. *)
Lemma recv_all_eats fuel n k first more out cl fs so :
  length first = S k -> len first < n ->
  n - len first < len more -> len more <= n ->
  recv_all (S fuel) n (World (Sock (first ++ more) [k] out cl) fs so)
  = (Hang, World (Sock [] [] out cl) fs so).
Proof.
  intros Hk Hn Hm Hle. unfold recv_all. assert (Hle' : len first <= n) by lia.
  rewrite (bind_ok _ _ _ _ _ (recv_piece n k first more out cl fs so [] Hk Hle')).
  cbn [recv_all_loop]. destruct (Z.eqb_spec (len first) n) as [E|_]; [lia|].
  assert (Hr : recv n (World (Sock more [] out cl) fs so)
               = (Ok more, World (Sock [] [] out cl) fs so)).
  { unfold recv. pose proof (len_nonneg first).
    destruct (Z.ltb_spec n 0); [lia|].
    cbn [conn inbuf chunks outbuf closed set_conn files stdout tail].
    rewrite take_ge, drop_ge by (unfold len in *; lia). reflexivity. }
  rewrite (bind_ok _ _ _ _ _ Hr).
  apply recv_all_loop_dry; [pose proof (len_nonneg first); lia|].
  rewrite len_app. lia.
Qed.

Lemma bind_hangs {A B} (m : M A) (k : A -> M B) w :
  (exists w', m w = (Hang, w')) -> fst (bind m k w) = Hang.
Proof. intros [w' H]. unfold bind. rewrite H. reflexivity. Qed.

(** ** A list of strings that arrives in pieces *)

(** C10 (the code differs): the four bytes ff ff ff ff of the count -1,
    followed by two more bytes, and handed over by the transport as two
    bytes and then the rest.  The first [recv] of [recv_all] returns
    two bytes; the second asks for four bytes again, not for the two
    that are missing, and takes all that is left.  [recv_all] then
    holds six bytes, its loop never ends, and [recv_str_list] never
    returns; the two bytes behind the count have been taken off the
    stream. *)
Theorem recv_str_list_negative_count_in_pieces fuel :
  let w := World (Sock [xff; xff; xff; xff; x2a; x2b] [1%nat] [] false) ∅ [] in
  unpack_i [xff; xff; xff; xff] = Ok (-1)
  /\ fst (recv_str_list fuel w) = Hang
  /\ recv_str_list (S fuel) w = (Hang, World (Sock [] [] [] false) ∅ []).
Proof.
  intros w. subst w. split; [reflexivity|].
  assert (H : forall fuel',
            recv_all (S fuel') 4
              (World (Sock ([xff; xff] ++ [xff; xff; x2a; x2b]) [1%nat] [] false) ∅ [])
            = (Hang, World (Sock [] [] [] false) ∅ [])).
  { intros fuel'. apply recv_all_eats; vm_compute; congruence. }
  split.
  - destruct fuel as [|fuel]; [reflexivity|].
    unfold recv_str_list, recv_single_value, recv_formatted_data.
    change (calcsize Fmt_i) with 4.
    erewrite bind_hang; [reflexivity|]. apply bind_hang. apply H.
  - unfold recv_str_list, recv_single_value, recv_formatted_data.
    change (calcsize Fmt_i) with 4.
    apply bind_hang, bind_hang, H.
Qed.

(** C7 as stated fails in two ways.  On a string that holds a lone
    surrogate [send_str_list] raises [UnicodeEncodeError] after the
    count, and what it has written does not read back as the list.
    And what [send_str_list] writes for the list ["ab", "c"] does not
    read back when the transport hands the first byte of "ab" over
    alone: [recv_all] then takes three bytes for the two it was asked
    for, and [recv_str_list] never returns. *)
Lemma str_list_not_read_back :
  (fst (send_str_list [[55296]] (start [] ∅)) = Raise UnicodeEncodeError
   /\ fst (recv_str_list 8
             (start (sent (snd (send_str_list [[55296]] (start [] ∅)))) ∅))
      <> Ok [[55296]])
  /\ (fst (send_str_list [[97; 98]; [99]] (start [] ∅)) = Ok tt
      /\ forall fuel,
           fst (recv_str_list fuel
                  (World (Sock (sent (snd (send_str_list [[97; 98]; [99]]
                                             (start [] ∅))))
                               [3; 3; 0]%nat [] false) ∅ []))
           = Hang).
Proof.
  split; [split; [reflexivity | vm_compute; discriminate]|].
  split; [reflexivity|]. intros fuel.
  assert (E : sent (snd (send_str_list [[97; 98]; [99]] (start [] ∅)))
              = int32_le 2 ++ int32_le 2 ++ [x61] ++ [x62] ++ int32_le 1 ++ [x63])
    by reflexivity.
  rewrite E. clear E.
  assert (H2 : int32_min <= 2 <= int32_max)
    by (unfold int32_min, int32_max; lia).
  unfold recv_str_list.
  rewrite (bind_ok _ _ _ _ _
             (recv_int_at_once fuel 2 _ 3 [3; 0]%nat [] false ∅ [] H2 (le_n 3))).
  change (range 2) with [0; 1]%nat. cbn [for_in].
  apply bind_hangs.
  destruct (recv_all_too_much fuel 2 0 [x61] ([x62] ++ int32_le 1 ++ [x63])
              [] false ∅ [])
    as (w' & Hw & _); [reflexivity | vm_compute; reflexivity
                      | vm_compute; reflexivity |].
  exists w'. apply bind_hang. unfold recv_str.
  rewrite (bind_ok _ _ _ _ _
             (recv_int_at_once fuel 2 _ 3 [0]%nat [] false ∅ [] H2 (le_n 3))).
  apply bind_hang. exact Hw.
Qed.

(** ** The server's side of a get session *)

Lemma server_get_step name inb ch out cl fs so :
  servable fs name ->
  bind (isfile name) (fun present =>
    if present : bool then
      bind (read_file name) (fun file_data =>
        bind (send_bool true) (fun _ =>
          bind (lift (pack Fmt_i (len file_data))) (fun size =>
            bind (sendall size) (fun _ => sendall file_data))))
    else ret tt)
    (World (Sock inb ch out cl) fs so)
  = (Ok tt, World (Sock inb ch (out ++ get_reply fs name) cl) fs so).
Proof.
  intros Hname. rewrite (bind_ok _ _ _ _ _ (isfile_eq _ _)). cbn [files].
  unfold get_reply. destruct (contents fs name) as [data|] eqn:E.
  - rewrite bool_decide_eq_true_2 by eauto.
    rewrite (bind_ok _ _ _ _ _
               (read_file_eq name data (World (Sock inb ch out cl) fs so) E)).
    rewrite (bind_ok _ _ _ _ _ (send_bool_ok _ _ _ _ _ _ _)).
    cbn [pack].
    rewrite (bind_lift_ok _ _ _ _ (pack_i_ok _ (len_range _ (Hname _ E)))).
    rewrite (bind_ok _ _ _ _ _ (sendall_ok _ _ _ _ _ _ _)).
    rewrite sendall_ok. unfold frame. rewrite <- !app_assoc. reflexivity.
  - rewrite bool_decide_eq_false_2 by (intros [? ?]; discriminate).
    cbn. rewrite app_nil_r. reflexivity.
Qed.

Lemma server_get_loop_ok filenames : forall inb ch out cl fs so,
  Forall (servable fs) filenames ->
  for_in filenames (fun filename (_ : unit) =>
    bind (isfile filename) (fun present =>
      if present : bool then
        bind (read_file filename) (fun file_data =>
          bind (send_bool true) (fun _ =>
            bind (lift (pack Fmt_i (len file_data))) (fun size =>
              bind (sendall size) (fun _ => sendall file_data))))
      else ret tt)) tt
    (World (Sock inb ch out cl) fs so)
  = (Ok tt, World (Sock inb ch (out ++ flat_map (get_reply fs) filenames) cl) fs so).
Proof.
  induction filenames as [|name filenames IH]; intros inb ch out cl fs so H.
  - cbn. rewrite app_nil_r. reflexivity.
  - inversion H as [|? ? Hname Hrest]; subst. cbn [for_in flat_map].
    rewrite (bind_ok _ _ _ _ _ (server_get_step _ _ _ _ _ _ _ Hname)).
    rewrite IH by exact Hrest. rewrite <- app_assoc. reflexivity.
Qed.

Lemma server_get_ok fuel filenames rest out cl fs so :
  len filenames <= int32_max ->
  Forall sendable filenames ->
  Forall (servable fs) filenames ->
  server_handle_request fuel
    (World (Sock (get_request filenames ++ rest) [] out cl) fs so)
  = (Ok tt,
     World (Sock rest [] (out ++ int32_le 1 ++ flat_map (get_reply fs) filenames)
                 true) fs so).
Proof.
  intros Hn Hs Hf. unfold server_handle_request, get_request.
  eapply with_conn_ok.
  rewrite (bind_lift_ok _ _ _ _ pack_version).
  rewrite (bind_ok _ _ _ _ _ (sendall_ok _ _ _ _ _ _ _)).
  cbn [app]. rewrite (bind_ok _ _ _ _ _ (recv_bool _ _ _ _ _ _ _)).
  change (negb (Z_of_byte x01 =? 0)) with true. cbv iota.
  rewrite (bind_ok _ _ _ _ _ (recv_str_list_ok _ _ _ _ _ _ _ Hn Hs)).
  rewrite server_get_loop_ok by exact Hf. rewrite <- app_assoc. reflexivity.
Qed.

(** ** Sessions, round by round *)

Lemma transcripts_S client server cfs sfs n :
  transcripts client server cfs sfs (S n)
  = (sent (snd (client_run client cfs (snd (transcripts client server cfs sfs n)))),
     sent (snd (server_run server sfs (fst (transcripts client server cfs sfs n))))).
Proof. cbn [transcripts]. destruct (transcripts client server cfs sfs n). reflexivity. Qed.

Lemma session_eq client server cfs sfs n :
  session client server cfs sfs n
  = (client_run client cfs (snd (transcripts client server cfs sfs n)),
     server_run server sfs (fst (transcripts client server cfs sfs n))).
Proof. unfold session. destruct (transcripts client server cfs sfs n). reflexivity. Qed.

Lemma with_conn_hang {A} (body : M A) w w' :
  body w = (Hang, w') -> with_conn body w = (Hang, w').
Proof. intros H. unfold with_conn. rewrite H. reflexivity. Qed.

Lemma with_conn_sent_eq {A} (body : M A) w :
  sent (snd (with_conn body w)) = sent (snd (body w)).
Proof. unfold with_conn. destruct (body w) as [[a|e|] w1]; reflexivity. Qed.

(** Before the server has said anything, a client only waits. *)
Lemma get_files_idle fuel filenames cfs :
  get_files fuel filenames (start [] cfs) = (Hang, start [] cfs).
Proof.
  unfold get_files, start, fresh. apply with_conn_hang, bind_hang.
  apply recv_single_value_short. reflexivity.
Qed.


(** The server speaks first: the version, and then it waits. *)
Lemma server_idle fuel sfs :
  server_handle_request fuel (start [] sfs)
  = (Hang, World (Sock [] [] (int32_le 1) false) sfs []).
Proof.
  unfold server_handle_request, start, fresh. apply with_conn_hang.
  rewrite (bind_lift_ok _ _ _ _ pack_version).
  rewrite (bind_ok _ _ _ _ _ (sendall_ok _ _ _ _ _ _ _)).
  apply bind_hang. cbn [app]. apply recv_single_value_short. reflexivity.
Qed.

Lemma version_range : int32_min <= 1 <= int32_max.
Proof. unfold int32_min, int32_max. lia. Qed.

(** Once it has read version 1, [get_files] writes its request, and
    writes nothing else, whatever the server goes on to send. *)
Lemma get_files_sent fuel filenames any cfs :
  len filenames <= int32_max ->
  Forall sendable filenames ->
  sent (snd (get_files fuel filenames (start (int32_le 1 ++ any) cfs)))
  = get_request filenames.
Proof.
  intros Hn Hs. unfold get_files, start, fresh. rewrite with_conn_sent_eq.
  rewrite (bind_ok _ _ _ _ _ (recv_int _ _ _ _ _ _ _ version_range)).
  change (negb (1 =? 1)) with false. cbv iota.
  rewrite (bind_ok _ _ _ _ _ (send_bool_ok _ _ _ _ _ _ _)).
  rewrite (bind_ok _ _ _ _ _ (send_str_list_ok _ _ _ _ _ _ _ Hn Hs)).
  match goal with
  | |- sent (snd (?m ?w)) = _ =>
      assert (Hp : preserves sent m)
        by frame;
      rewrite (Hp w)
  end.
  reflexivity.
Qed.

Lemma get_transcripts_1 fuel filenames cfs sfs :
  transcripts (get_files fuel filenames) (server_handle_request fuel) cfs sfs 1
  = ([], int32_le 1).
Proof.
  rewrite transcripts_S. cbn [transcripts fst snd].
  unfold client_run, server_run. rewrite get_files_idle, server_idle.
  reflexivity.
Qed.

Lemma get_transcripts_2 fuel filenames cfs sfs :
  len filenames <= int32_max ->
  Forall sendable filenames ->
  transcripts (get_files fuel filenames) (server_handle_request fuel) cfs sfs 2
  = (get_request filenames, int32_le 1).
Proof.
  intros Hn Hs. rewrite transcripts_S, get_transcripts_1. cbn [fst snd].
  unfold client_run, server_run. rewrite server_idle.
  rewrite <- (app_nil_r (int32_le 1)) at 1.
  rewrite get_files_sent by assumption. reflexivity.
Qed.

Lemma get_transcripts_3 fuel filenames cfs sfs :
  len filenames <= int32_max ->
  Forall sendable filenames ->
  Forall (servable sfs) filenames ->
  transcripts (get_files fuel filenames) (server_handle_request fuel) cfs sfs 3
  = (get_request filenames, int32_le 1 ++ flat_map (get_reply sfs) filenames).
Proof.
  intros Hn Hs Hf. rewrite transcripts_S, get_transcripts_2 by assumption.
  cbn [fst snd]. unfold client_run, server_run.
  rewrite <- (app_nil_r (int32_le 1)) at 1.
  rewrite get_files_sent by assumption.
  unfold start, fresh. rewrite <- (app_nil_r (get_request filenames)).
  rewrite server_get_ok by assumption. reflexivity.
Qed.

(** Three rounds are all it takes: a fourth changes nothing. *)
Lemma get_session_settled fuel filenames cfs sfs :
  len filenames <= int32_max ->
  Forall sendable filenames ->
  Forall (servable sfs) filenames ->
  settled (get_files fuel filenames) (server_handle_request fuel) cfs sfs 3.
Proof.
  intros Hn Hs Hf. unfold settled.
  rewrite transcripts_S, get_transcripts_3 by assumption.
  cbn [fst snd]. unfold client_run, server_run.
  rewrite get_files_sent by assumption.
  unfold start, fresh. rewrite <- (app_nil_r (get_request filenames)).
  rewrite server_get_ok by assumption. reflexivity.
Qed.

(** ** The client's side of a get session *)

(** A true flag: the client takes the framed bytes that follow as the
    contents of the file it is waiting for. *)
Lemma client_get_step_found fuel name data rest out cl cfs so :
  len data <= int32_max ->
  bind (recv_single_value fuel Fmt_b) (fun file_exists =>
    if file_exists : bool then
      bind (recv_single_value fuel Fmt_i) (fun size_of_file =>
        bind (recv_all fuel size_of_file) (fun file_data =>
          save_file name file_data))
    else print (Text (name ++ py " doesn't exist on the server")))
    (World (Sock (([x01] ++ frame data) ++ rest) [] out cl) cfs so)
  = save_file name data (World (Sock rest [] out cl) cfs so).
Proof.
  intros Hd. unfold frame. cbn [app].
  rewrite (bind_ok _ _ _ _ _ (recv_bool _ _ _ _ _ _ _)).
  change (negb (Z_of_byte x01 =? 0)) with true. cbv iota.
  rewrite <- app_assoc.
  rewrite (bind_ok _ _ _ _ _ (recv_int _ _ _ _ _ _ _ (len_range _ Hd))).
  rewrite (bind_ok _ _ _ _ _ (recv_all_exact _ _ _ _ _ _ _)).
  reflexivity.
Qed.

(** No flag left to read: the client waits for one for ever. *)
Lemma client_get_step_starved fuel name out cl cfs so :
  bind (recv_single_value fuel Fmt_b) (fun file_exists =>
    if file_exists : bool then
      bind (recv_single_value fuel Fmt_i) (fun size_of_file =>
        bind (recv_all fuel size_of_file) (fun file_data =>
          save_file name file_data))
    else print (Text (name ++ py " doesn't exist on the server")))
    (World (Sock [] [] out cl) cfs so)
  = (Hang, World (Sock [] [] out cl) cfs so).
Proof. apply bind_hang, recv_single_value_short. reflexivity. Qed.

(** The client asks for a name the server does not have and then for
    one it has.  All the server sends after the version is the second
    file; the client takes it for the first. *)
Lemma get_files_missing_first fuel m p d cfs :
  sendable m -> sendable p -> len d <= int32_max ->
  plain m = true -> is_dir cfs [m] = false ->
  get_files fuel [m; p] (start (int32_le 1 ++ [x01] ++ frame d) cfs)
  = (Hang, World (Sock [] [] (get_request [m; p]) false) (<[m := d]> cfs) []).
Proof.
  intros Hm Hp Hd Hpl Hr. unfold get_files, start, fresh. apply with_conn_hang.
  rewrite (bind_ok _ _ _ _ _ (recv_int _ _ _ _ _ _ _ version_range)).
  change (negb (1 =? 1)) with false. cbv iota.
  rewrite (bind_ok _ _ _ _ _ (send_bool_ok _ _ _ _ _ _ _)).
  assert (Hn : len [m; p] <= int32_max) by (vm_compute; discriminate).
  assert (Hs : Forall sendable [m; p])
    by (apply List.Forall_cons; [|apply List.Forall_cons; [|apply List.Forall_nil]];
        assumption).
  rewrite (bind_ok _ _ _ _ _ (send_str_list_ok _ _ _ _ _ _ _ Hn Hs)).
  cbn [for_in]. rewrite <- (app_nil_r ([x01] ++ frame d)).
  rewrite (bind_ok _ _ _ _ _
             (eq_trans (client_get_step_found _ _ _ _ _ _ _ _ Hd)
                       (save_file_eq _ _ _ _ _ Hpl Hr))).
  apply bind_hang. rewrite client_get_step_starved. reflexivity.
Qed.

Lemma get_session_missing_first fuel m p d cfs sfs :
  sendable m -> sendable p ->
  contents sfs m = None -> contents sfs p = Some d -> len d <= int32_max ->
  plain m = true -> is_dir cfs [m] = false ->
  get_session fuel [m; p] cfs sfs 3
  = ((Hang, World (Sock [] [] (get_request [m; p]) false) (<[m := d]> cfs) []),
     (Ok tt, World (Sock [] [] (int32_le 1 ++ [x01] ++ frame d) true) sfs [])).
Proof.
  intros Hm Hp Em Ep Hd Hpl Hroom. unfold get_session.
  assert (Hn : len [m; p] <= int32_max) by (vm_compute; discriminate).
  assert (Hs : Forall sendable [m; p])
    by (apply List.Forall_cons; [|apply List.Forall_cons; [|apply List.Forall_nil]];
        assumption).
  assert (Hf : Forall (servable sfs) [m; p]).
  { apply List.Forall_cons; [|apply List.Forall_cons; [|apply List.Forall_nil]];
      intros data E; congruence. }
  rewrite session_eq, get_transcripts_3 by assumption. cbn [fst snd].
  assert (Hr : flat_map (get_reply sfs) [m; p] = [x01] ++ frame d).
  { cbn [flat_map]. unfold get_reply. rewrite Em, Ep, app_nil_r. reflexivity. }
  rewrite Hr. unfold client_run, server_run. f_equal.
  - apply get_files_missing_first; assumption.
  - unfold start, fresh. rewrite <- (app_nil_r (get_request [m; p])).
    rewrite server_get_ok by assumption. rewrite Hr. reflexivity.
Qed.

(** ** A missing file in a get session *)

Lemma sendable_missing : sendable (py "missing.txt").
Proof. split; [repeat constructor | vm_compute; discriminate]. Qed.

Lemma sendable_a : sendable (py "a.txt").
Proof. split; [repeat constructor | vm_compute; discriminate]. Qed.

(** C1 (the code departs from it): the client asks for [missing.txt],
    which the server does not have.  The server answers the request
    with nothing at all: the four bytes of the version are all it ever
    writes, and no false flag follows them. *)
Theorem server_writes_no_flag_for_missing_file fuel :
  server_handle_request fuel (start (get_request [py "missing.txt"]) ∅)
  = (Ok tt, World (Sock [] [] (int32_le 1) true) ∅ []).
Proof.
  unfold start, fresh.
  rewrite <- (app_nil_r (get_request [py "missing.txt"])).
  rewrite server_get_ok.
  - reflexivity.
  - vm_compute. discriminate.
  - apply List.Forall_cons; [exact sendable_missing | apply List.Forall_nil].
  - apply List.Forall_cons; [|apply List.Forall_nil].
    intros data E. discriminate.
Qed.

Lemma hello_small : len [x68; x65; x6c; x6c; x6f] <= int32_max.
Proof. vm_compute. discriminate. Qed.

Lemma missing_neq_a : py "missing.txt" <> py "a.txt".
Proof. intros H. vm_compute in H. discriminate. Qed.

(** C3 (the code departs from it): the client asks for [missing.txt]
    and [a.txt]; the server has only [a.txt], holding [hello].  The
    client ends up with a local file [missing.txt] holding [hello], has
    read the payload of [a.txt] for it, has printed no not-found line,
    and waits for ever for the flag of [a.txt]. *)
Theorem get_missing_file_goes_unnoticed fuel :
  let client :=
    fst (get_session fuel [py "missing.txt"; py "a.txt"] ∅
           {[ py "a.txt" := [x68; x65; x6c; x6c; x6f] ]} 3) in
  fst client = Hang
  /\ files (snd client) !! py "missing.txt" = Some [x68; x65; x6c; x6c; x6f]
  /\ stdout (snd client) = []
  /\ inbuf (conn (snd client)) = [].
Proof.
  rewrite (get_session_missing_first fuel _ _ [x68; x65; x6c; x6c; x6f])
    by first [ exact sendable_missing | exact sendable_a | exact hello_small
             | reflexivity ].
  cbn [fst snd files stdout conn inbuf].
  rewrite lookup_insert_eq. auto.
Qed.

(** C4 (the code departs from it): in the same session the server has
    [a.txt], the client has asked for it, and the server has sent it and
    closed; yet the client has no file [a.txt], and never returns. *)
Theorem get_present_file_is_lost fuel :
  let outcome :=
    get_session fuel [py "missing.txt"; py "a.txt"] ∅
      {[ py "a.txt" := [x68; x65; x6c; x6c; x6f] ]} 3 in
  files (snd (snd outcome)) !! py "a.txt" = Some [x68; x65; x6c; x6c; x6f]
  /\ fst (snd outcome) = Ok tt
  /\ files (snd (fst outcome)) !! py "a.txt" = None
  /\ fst (fst outcome) = Hang.
Proof.
  rewrite (get_session_missing_first fuel _ _ [x68; x65; x6c; x6c; x6f])
    by first [ exact sendable_missing | exact sendable_a | exact hello_small
             | reflexivity ].
  cbn [fst snd files].
  rewrite lookup_singleton_eq, lookup_insert_ne by exact missing_neq_a.
  rewrite lookup_empty. auto.
Qed.

(** ** The put session *)

Lemma put_step_ok cfs name inb ch out cl so :
  uploadable cfs name ->
  bind (read_file name) (fun file_data =>
    bind (send_str name) (fun _ =>
      bind (lift (pack Fmt_i (len file_data))) (fun size =>
        bind (sendall size) (fun _ => sendall file_data))))
    (World (Sock inb ch out cl) cfs so)
  = (Ok tt, World (Sock inb ch (out ++ put_item cfs name) cl) cfs so).
Proof.
  intros [Hs (data & E & Hd)].
  rewrite (bind_ok _ _ _ _ _
             (read_file_eq name data (World (Sock inb ch out cl) cfs so) E)).
  rewrite (bind_ok _ _ _ _ _ (send_str_ok _ _ _ _ _ _ _ Hs)).
  cbn [pack]. rewrite (bind_lift_ok _ _ _ _ (pack_i_ok _ (len_range _ Hd))).
  rewrite (bind_ok _ _ _ _ _ (sendall_ok _ _ _ _ _ _ _)).
  rewrite sendall_ok. unfold put_item. rewrite E. unfold frame at 3.
  rewrite <- !app_assoc. reflexivity.
Qed.

Lemma put_loop_ok cfs filenames : forall inb ch out cl so,
  Forall (uploadable cfs) filenames ->
  for_in filenames (fun filename (_ : unit) =>
    bind (read_file filename) (fun file_data =>
      bind (send_str filename) (fun _ =>
        bind (lift (pack Fmt_i (len file_data))) (fun size =>
          bind (sendall size) (fun _ => sendall file_data))))) tt
    (World (Sock inb ch out cl) cfs so)
  = (Ok tt, World (Sock inb ch (out ++ flat_map (put_item cfs) filenames) cl) cfs so).
Proof.
  induction filenames as [|name filenames IH]; intros inb ch out cl so H.
  - cbn. rewrite app_nil_r. reflexivity.
  - inversion H as [|? ? Hname Hrest]; subst.
    cbn [for_in flat_map].
    rewrite (bind_ok _ _ _ _ _ (put_step_ok _ _ _ _ _ _ _ Hname)).
    rewrite IH by exact Hrest. rewrite <- app_assoc. reflexivity.
Qed.















Lemma sendable_b : sendable (py "b.txt").
Proof. split; [repeat constructor | vm_compute; discriminate]. Qed.

Lemma world_small : len [x77; x6f; x72; x6c; x64] <= int32_max.
Proof. vm_compute. discriminate. Qed.



Lemma with_conn_raise {A} (body : M A) w e inb ch out cl fs so :
  body w = (Raise e, World (Sock inb ch out cl) fs so) ->
  with_conn body w = (Raise e, World (Sock inb ch out true) fs so).
Proof. intros H. unfold with_conn. rewrite H. reflexivity. Qed.




Lemma len_two_gib : len two_gib = 2 ^ 31.
Proof.
  unfold two_gib, len. rewrite length_replicate. apply Z2Nat.id. lia.
Qed.

Lemma two_gib_too_big : int32_max < len two_gib.
Proof. rewrite len_two_gib. unfold int32_max. lia. Qed.

Lemma two_gib_there :
  contents {[ py "b.txt" := two_gib ]} (py "b.txt") = Some two_gib.
Proof.
  rewrite contents_plain by reflexivity. apply lookup_singleton_eq.
Qed.


(** ** The accept loop *)

(** The handler closes the connection itself, so the [with s:] around
    it in [run_server] changes nothing. *)
Lemma with_conn_twice {A} (body : M A) w :
  with_conn (with_conn body) w = with_conn body w.
Proof.
  unfold with_conn. destruct (body w) as [[a|e|] [[inb ch out cl] fs so]];
    reflexivity.
Qed.

Lemma with_conn_handler fuel w :
  with_conn (server_handle_request fuel) w = server_handle_request fuel w.
Proof. unfold server_handle_request. apply with_conn_twice. Qed.

(** One turn of the loop, by what the handler does with the accepted
    connection. *)
Lemma run_server_cons fuel s backlog w :
  run_server fuel (s :: backlog) w
  = match server_handle_request fuel (set_conn s w) with
    | (Ok _, w1) =>
        bind (run_server fuel backlog) (fun rest => ret (conn w1 :: rest)) w1
    | (Raise e, w1) =>
        bind (run_server fuel backlog) (fun rest => ret (conn w1 :: rest))
          (World (conn w1) (files w1) (stdout w1 ++ [ExnText e]))
    | (Hang, w1) => (Hang, w1)
    end.
Proof.
  cbn [run_server]. unfold bind at 1. unfold try_except.
  unfold bind at 1. unfold accept at 1. rewrite with_conn_handler.
  destruct (server_handle_request fuel (set_conn s w)) as [[[]|e|] w1];
    reflexivity.
Qed.

Lemma run_server_never_raises fuel backlog : forall w e,
  fst (run_server fuel backlog w) <> Raise e.
Proof.
  induction backlog as [|s backlog IH]; intros w e; [discriminate|].
  rewrite run_server_cons.
  destruct (server_handle_request fuel (set_conn s w)) as [[[]|e1|] w1];
    [| |discriminate].
  - unfold bind. specialize (IH w1 e).
    destruct (run_server fuel backlog w1) as [[rest|e2|] w2];
      [discriminate | exact IH | discriminate].
  - unfold bind.
    specialize (IH (World (conn w1) (files w1) (stdout w1 ++ [ExnText e1])) e).
    destruct (run_server fuel backlog _) as [[rest|e2|] w2];
      [discriminate | exact IH | discriminate].
Qed.

(** C8: when the handler raises an exception on a connection, the
    exception does not leave [run_server]; it is printed, and the loop
    goes on to serve the connections that follow exactly as it would
    have served them on their own, from the files the failed handler
    left behind. *)
Theorem run_server_catches fuel s backlog w e w1 :
  server_handle_request fuel (set_conn s w) = (Raise e, w1) ->
  (forall e', fst (run_server fuel (s :: backlog) w) <> Raise e')
  /\ run_server fuel (s :: backlog) w
     = bind (run_server fuel backlog) (fun rest => ret (conn w1 :: rest))
         (World (conn w1) (files w1) (stdout w1 ++ [ExnText e])).
Proof.
  intros H. split.
  - intros e'. apply run_server_never_raises.
  - rewrite run_server_cons, H. reflexivity.
Qed.

Lemma run_server_catches_witness :
  let fs : gmap pystr bytes := {[ py "a.txt" := [x68; x65; x6c; x6c; x6f] ]} in
  let bad := fresh [x01; x01; x00; x00; x00; xff; xff; xff; xff] in
  let good := fresh (get_request [py "a.txt"]) in
  let w1 := World (Sock [] [] (int32_le 1) true) fs [] in
  server_handle_request 0 (set_conn bad (start [] fs)) = (Raise ValueError, w1)
  /\ (forall e', fst (run_server 0 [bad; good] (start [] fs)) <> Raise e')
  /\ run_server 0 [bad; good] (start [] fs)
     = bind (run_server 0 [good]) (fun rest => ret (conn w1 :: rest))
         (World (conn w1) (files w1) (stdout w1 ++ [ExnText ValueError]))
  /\ run_server 0 [bad; good] (start [] fs)
     = (Ok [Sock [] [] (int32_le 1) true;
            Sock [] [] (int32_le 1 ++ [x01] ++ frame [x68; x65; x6c; x6c; x6f]) true],
        World (Sock [] [] (int32_le 1 ++ [x01] ++ frame [x68; x65; x6c; x6c; x6f]) true)
              fs [ExnText ValueError]).
Proof.
  intros fs bad good w1.
  assert (H : server_handle_request 0 (set_conn bad (start [] fs))
              = (Raise ValueError, w1)) by (vm_compute; reflexivity).
  split; [exact H|].
  split; [exact (proj1 (run_server_catches 0 bad [good] (start [] fs) _ _ H))|].
  split; [exact (proj2 (run_server_catches 0 bad [good] (start [] fs) _ _ H))|].
  vm_compute. reflexivity.
Defined.

(** A peer that connects and goes away without a word: the handler
    waits for the direction flag for ever, no exception is raised for
    the loop to catch, nothing is printed, the connection is not
    closed, and the connections behind it are never accepted. *)
Theorem run_server_stuck fuel s backlog w :
  inbuf s = [] -> chunks s = [] ->
  run_server fuel (s :: backlog) w
  = (Hang,
     World (Sock [] [] (outbuf s ++ int32_le 1) (closed s)) (files w) (stdout w)).
Proof.
  destruct s as [inb ch out cl], w as [c fs so].
  cbn [inbuf chunks outbuf closed files stdout].
  intros -> ->. rewrite run_server_cons.
  replace (server_handle_request fuel _)
    with (@pair (result unit) world Hang
            (World (Sock [] [] (out ++ int32_le 1) cl) fs so)); [reflexivity|].
  symmetry. unfold server_handle_request, set_conn. apply with_conn_hang.
  cbn [conn files stdout].
  rewrite (bind_lift_ok _ _ _ _ pack_version).
  rewrite (bind_ok _ _ _ _ _ (sendall_ok _ _ _ _ _ _ _)).
  apply bind_hang, recv_single_value_short. reflexivity.
Qed.

Lemma run_server_stuck_witness :
  (inbuf (fresh []) = [] /\ chunks (fresh []) = [])
  /\ run_server 3 [fresh []; fresh (get_request [py "a.txt"])] (start [] ∅)
     = (Hang,
        World (Sock [] [] (outbuf (fresh []) ++ int32_le 1) (closed (fresh [])))
              (files (start [] ∅)) (stdout (start [] ∅))).
Proof.
  split; [split; reflexivity|].
  exact (run_server_stuck 3 (fresh []) [fresh (get_request [py "a.txt"])]
           (start [] ∅) eq_refl eq_refl).
Defined.

(** ** The get session, whatever the server has *)

















(** ** Where an upload stops *)

Lemma for_in_app {A S} (l1 l2 : list A) (body : A -> S -> M S) : forall acc w,
  for_in (l1 ++ l2) body acc w
  = bind (for_in l1 body acc) (for_in l2 body) w.
Proof.
  induction l1 as [|x l1 IH]; intros acc w; [reflexivity|].
  cbn [app for_in]. unfold bind.
  destruct (body x acc w) as [[acc'|e|] w1]; [|reflexivity..].
  rewrite IH. reflexivity.
Qed.

(** [put_files] up to the file at which it stops: the flag, the count
    of all the names and the files before it have gone out. *)
Lemma put_files_until fuel before name after any cfs e out' :
  len (before ++ name :: after) <= int32_max ->
  Forall (uploadable cfs) before ->
  (forall out,
     bind (read_file name) (fun file_data =>
       bind (send_str name) (fun _ =>
         bind (lift (pack Fmt_i (len file_data))) (fun size =>
           bind (sendall size) (fun _ => sendall file_data))))
       (World (Sock any [] out false) cfs [])
     = (Raise e, World (Sock any [] (out ++ out') false) cfs [])) ->
  put_files fuel (before ++ name :: after) (start (int32_le 1 ++ any) cfs)
  = (Raise e,
     World (Sock any []
              ([x00] ++ int32_le (len (before ++ name :: after))
               ++ flat_map (put_item cfs) before ++ out') true) cfs []).
Proof.
  intros Hn Hu Hstop. unfold put_files, start, fresh. eapply with_conn_raise.
  rewrite (bind_ok _ _ _ _ _ (recv_int _ _ _ _ _ _ _ version_range)).
  change (negb (1 =? 1)) with false. cbv iota.
  rewrite (bind_ok _ _ _ _ _ (send_bool_ok _ _ _ _ _ _ _)).
  cbn [pack]. rewrite (bind_lift_ok _ _ _ _ (pack_i_ok _ (len_range _ Hn))).
  rewrite (bind_ok _ _ _ _ _ (sendall_ok _ _ _ _ _ _ _)).
  rewrite for_in_app.
  rewrite (bind_ok _ _ _ _ _ (put_loop_ok _ _ _ _ _ _ _ Hu)).
  cbn [for_in]. erewrite bind_raise; [|apply Hstop].
  rewrite <- !app_assoc. reflexivity.
Qed.

(** A name that cannot be read stops [put_files] with the error of the
    read, FileNotFoundError for a name that leads to nothing; by then
    the flag, the count of all the names and every file before it have
    gone out, so the server has been promised files that never come. *)
Theorem put_files_missing_local_file fuel before name after any cfs e :
  len (before ++ name :: after) <= int32_max ->
  Forall (uploadable cfs) before ->
  open_rb cfs name = Raise e ->
  put_files fuel (before ++ name :: after) (start (int32_le 1 ++ any) cfs)
  = (Raise e,
     World (Sock any []
              ([x00] ++ int32_le (len (before ++ name :: after))
               ++ flat_map (put_item cfs) before) true) cfs []).
Proof.
  intros Hn Hu E.
  rewrite (put_files_until fuel before name after any cfs e [])
    by (try assumption; intros out; apply bind_raise; unfold read_file;
        cbn [files]; rewrite E, app_nil_r; reflexivity).
  rewrite app_nil_r. reflexivity.
Qed.

Lemma put_files_missing_local_file_witness :
  let cfs : gmap pystr bytes := {[ py "b.txt" := [x77; x6f; x72; x6c; x64] ]} in
  (len ([py "b.txt"] ++ py "missing.txt" :: []) <= int32_max
   /\ Forall (uploadable cfs) [py "b.txt"]
   /\ open_rb cfs (py "missing.txt") = Raise FileNotFoundError)
  /\ put_files 0 ([py "b.txt"] ++ py "missing.txt" :: [])
       (start (int32_le 1 ++ []) cfs)
     = (Raise FileNotFoundError,
        World (Sock [] []
                 ([x00] ++ int32_le (len ([py "b.txt"] ++ py "missing.txt" :: []))
                  ++ flat_map (put_item cfs) [py "b.txt"]) true) cfs []).
Proof.
  intros cfs.
  assert (Hn : len ([py "b.txt"] ++ py "missing.txt" :: []) <= int32_max)
    by (vm_compute; discriminate).
  assert (Hu : Forall (uploadable cfs) [py "b.txt"]).
  { apply List.Forall_cons; [|apply List.Forall_nil].
    split; [exact sendable_b|].
    exists [x77; x6f; x72; x6c; x64]. split; [reflexivity | exact world_small]. }
  assert (E : open_rb cfs (py "missing.txt") = Raise FileNotFoundError)
    by reflexivity.
  split; [repeat split; assumption|].
  exact (put_files_missing_local_file 0 [py "b.txt"] (py "missing.txt") [] [] cfs
           FileNotFoundError Hn Hu E).
Defined.

(** A file too long for the 32-bit size field stops [put_files] with
    struct.error when the size is packed: the files before it and its
    framed name have gone out, its size and contents never do. *)
Theorem put_files_oversize_file fuel before name data after any cfs :
  len (before ++ name :: after) <= int32_max ->
  Forall (uploadable cfs) before ->
  sendable name ->
  contents cfs name = Some data ->
  int32_max < len data ->
  put_files fuel (before ++ name :: after) (start (int32_le 1 ++ any) cfs)
  = (Raise StructError,
     World (Sock any []
              ([x00] ++ int32_le (len (before ++ name :: after))
               ++ flat_map (put_item cfs) before ++ frame (utf8 name)) true)
           cfs []).
Proof.
  intros Hn Hu Hs E Hd. apply put_files_until; try assumption.
  intros out.
  rewrite (bind_ok _ _ _ _ _
             (read_file_eq name data (World (Sock any [] out false) cfs []) E)).
  rewrite (bind_ok _ _ _ _ _ (send_str_ok _ _ _ _ _ _ _ Hs)).
  cbn [pack]. apply bind_lift_raise, pack_i_out_of_range. lia.
Qed.

Lemma put_files_oversize_file_witness :
  (len ([] ++ py "b.txt" :: []) <= int32_max
   /\ Forall (uploadable {[ py "b.txt" := two_gib ]}) []
   /\ sendable (py "b.txt")
   /\ contents {[ py "b.txt" := two_gib ]} (py "b.txt") = Some two_gib
   /\ int32_max < len two_gib)
  /\ put_files 0 ([] ++ py "b.txt" :: [])
       (start (int32_le 1 ++ []) {[ py "b.txt" := two_gib ]})
     = (Raise StructError,
        World (Sock [] []
                 ([x00] ++ int32_le (len ([] ++ py "b.txt" :: []))
                  ++ flat_map (put_item {[ py "b.txt" := two_gib ]}) []
                  ++ frame (utf8 (py "b.txt"))) true)
              {[ py "b.txt" := two_gib ]} []).
Proof.
  assert (Hn : len ([] ++ py "b.txt" :: []) <= int32_max)
    by (vm_compute; discriminate).
  split.
  - split; [exact Hn|]. split; [apply List.Forall_nil|].
    split; [exact sendable_b|].
    split; [exact two_gib_there | exact two_gib_too_big].
  - exact (put_files_oversize_file 0 [] (py "b.txt") two_gib [] []
             {[ py "b.txt" := two_gib ]} Hn (List.Forall_nil _) sendable_b
             two_gib_there two_gib_too_big).
Defined.

(** ** Lengths and counts that are not positive *)

(** A negative string length on the wire: [recv_str] passes it to
    [recv], which raises ValueError; only the four bytes of the length
    have been read. *)
Theorem recv_str_negative_length fuel v rest out cl fs so :
  int32_min <= v < 0 ->
  recv_str fuel (World (Sock (int32_le v ++ rest) [] out cl) fs so)
  = (Raise ValueError, World (Sock rest [] out cl) fs so).
Proof.
  intros Hv. unfold recv_str.
  assert (Hr : int32_min <= v <= int32_max) by (unfold int32_max; lia).
  rewrite (bind_ok _ _ _ _ _ (recv_int _ _ _ _ _ _ _ Hr)).
  apply bind_raise, recv_all_negative. lia.
Qed.

Lemma recv_str_negative_length_witness :
  (int32_min <= -1 < 0)
  /\ recv_str 0 (World (Sock (int32_le (-1) ++ [x61]) [] [] false) ∅ [])
     = (Raise ValueError, World (Sock [x61] [] [] false) ∅ []).
Proof.
  assert (H : int32_min <= -1 < 0) by (unfold int32_min; lia).
  split; [exact H|].
  exact (recv_str_negative_length 0 (-1) [x61] [] false ∅ [] H).
Defined.

(** A put request whose count is zero or negative, on a transport that
    hands every read all the bytes it asks for: the server reads the
    flag and the count and is done; it stores nothing, answers nothing
    but the version, and leaves what follows unread. *)
Theorem server_put_nothing fuel v rest out cl fs so :
  int32_min <= v <= 0 ->
  server_handle_request fuel
    (World (Sock ([x00] ++ int32_le v ++ rest) [] out cl) fs so)
  = (Ok tt, World (Sock rest [] (out ++ int32_le 1) true) fs so).
Proof.
  intros Hv. unfold server_handle_request. eapply with_conn_ok.
  rewrite (bind_lift_ok _ _ _ _ pack_version).
  rewrite (bind_ok _ _ _ _ _ (sendall_ok _ _ _ _ _ _ _)).
  cbn [app]. rewrite (bind_ok _ _ _ _ _ (recv_bool _ _ _ _ _ _ _)).
  change (negb (Z_of_byte x00 =? 0)) with false. cbv iota.
  assert (Hr : int32_min <= v <= int32_max) by (unfold int32_max; lia).
  rewrite (bind_ok _ _ _ _ _ (recv_int _ _ _ _ _ _ _ Hr)).
  replace (range v) with (@nil nat); [reflexivity|].
  unfold range. destruct v; try lia; reflexivity.
Qed.

Lemma server_put_nothing_witness :
  (int32_min <= -5 <= 0)
  /\ server_handle_request 0
       (World (Sock ([x00] ++ int32_le (-5) ++ [x61]) [] [] false)
              {[ py "a.txt" := [x68] ]} [])
     = (Ok tt,
        World (Sock [x61] [] ([] ++ int32_le 1) true) {[ py "a.txt" := [x68] ]} []).
Proof.
  assert (H : int32_min <= -5 <= 0) by (unfold int32_min; lia).
  split; [exact H|].
  exact (server_put_nothing 0 (-5) [x61] [] false {[ py "a.txt" := [x68] ]} [] H).
Defined.

(** ** What the clients leave alone *)



(** [put_files] only reads the local files: whatever the server sends,
    however the bytes arrive and however the call ends, every local
    file is as it was. *)
Theorem put_files_keeps_files fuel filenames w :
  files (snd (put_files fuel filenames w)) = files w.
Proof.
  unfold put_files. rewrite with_conn_files_eq.
  match goal with
  | |- files (snd (?m w)) = _ => assert (Hp : preserves files m); [|apply Hp]
  end.
  assert (Hs : forall data, preserves files (sendall data))
    by apply sendall_files.
  frame.
Qed.



(** ** [recv_all] on a stream that arrives in pieces *)

Lemma recv_all_loop_bytewise rest ch out cl fs so : forall todo fuel held,
  (length todo <= fuel)%nat ->
  recv_all_loop fuel (len (held ++ todo)) held
    (World (Sock (todo ++ rest) (replicate (length todo) 0%nat ++ ch) out cl) fs so)
  = (Ok (held ++ todo), World (Sock rest ch out cl) fs so).
Proof.
  induction todo as [|b todo IH]; intros fuel held Hf.
  - rewrite app_nil_r. destruct fuel; cbn [recv_all_loop];
      rewrite Z.eqb_refl; reflexivity.
  - destruct fuel as [|fuel]; [cbn in Hf; lia|]. cbn [recv_all_loop].
    destruct (Z.eqb_spec (len held) (len (held ++ b :: todo))) as [E|_].
    { rewrite len_app in E. unfold len in E. cbn [length] in E. lia. }
    cbn [length replicate app].
    change (b :: todo ++ rest) with ([b] ++ (todo ++ rest)).
    assert (Hb : len [b] <= len (held ++ b :: todo)).
    { rewrite len_app. pose proof (len_nonneg held).
      unfold len. cbn [length]. lia. }
    rewrite (bind_ok _ _ _ _ _
               (recv_piece _ 0 [b] (todo ++ rest) out cl fs so _ eq_refl Hb)).
    replace (held ++ b :: todo) with ((held ++ [b]) ++ todo)
      by (rewrite <- app_assoc; reflexivity).
    apply IH. cbn in Hf. lia.
Qed.

(** The bytes arrive one at a time: [recv_all] gathers exactly the
    bytes asked for, in one [recv] per byte, and leaves the rest
    unread. *)
Theorem recv_all_byte_by_byte fuel b bs rest ch out cl fs so :
  (length bs <= fuel)%nat ->
  recv_all fuel (len (b :: bs))
    (World (Sock ((b :: bs) ++ rest)
                 (replicate (length (b :: bs)) 0%nat ++ ch) out cl) fs so)
  = (Ok (b :: bs), World (Sock rest ch out cl) fs so).
Proof.
  intros Hf. unfold recv_all. cbn [length replicate app].
  change (b :: bs ++ rest) with ([b] ++ (bs ++ rest)).
  assert (Hb : len [b] <= len (b :: bs)) by (unfold len; cbn [length]; lia).
  rewrite (bind_ok _ _ _ _ _
             (recv_piece _ 0 [b] (bs ++ rest) out cl fs so _ eq_refl Hb)).
  apply (recv_all_loop_bytewise rest ch out cl fs so bs fuel [b] Hf).
Qed.

Lemma recv_all_byte_by_byte_witness :
  (length [x02; x03] <= 2)%nat
  /\ recv_all 2 (len [x01; x02; x03])
       (World (Sock ([x01; x02; x03] ++ [x04])
                    (replicate (length [x01; x02; x03]) 0%nat ++ []) [] false) ∅ [])
     = (Ok [x01; x02; x03], World (Sock [x04] [] [] false) ∅ []).
Proof.
  assert (H : (length [x02; x03] <= 2)%nat) by (cbn; lia).
  split; [exact H|].
  exact (recv_all_byte_by_byte 2 x01 [x02; x03] [x04] [] [] false ∅ [] H).
Defined.

(** A first piece shorter than what was asked for, with more than the
    missing bytes already waiting behind it: the second [recv] asks for
    the full count again, [recv_all] then holds more than it was asked
    for, and its loop never ends. *)
Theorem recv_all_overrun fuel n k first more out cl fs so :
  length first = S k ->
  len first < n ->
  n - len first < len more ->
  fst (recv_all fuel n (World (Sock (first ++ more) [k] out cl) fs so)) = Hang.
Proof.
  intros Hk Hn Hm. unfold recv_all.
  assert (Hle : len first <= n) by lia.
  rewrite (bind_ok _ _ _ _ _ (recv_piece n k first more out cl fs so [] Hk Hle)).
  destruct fuel as [|fuel]; cbn [recv_all_loop];
    destruct (Z.eqb_spec (len first) n) as [E|_]; try lia; [reflexivity|].
  unfold bind, recv. destruct (Z.ltb_spec n 0) as [Hneg|_].
  { pose proof (len_nonneg first). lia. }
  cbn [conn chunks inbuf].
  apply recv_all_loop_overrun. pose proof (len_nonneg first).
  rewrite len_app. unfold len in *. rewrite length_firstn. lia.
Qed.

Lemma recv_all_overrun_witness :
  (length [x01; x02] = 2%nat
   /\ len [x01; x02] < 4
   /\ 4 - len [x01; x02] < len [x03; x04; x05])
  /\ fst (recv_all 5 4
            (World (Sock ([x01; x02] ++ [x03; x04; x05]) [1%nat] [] false) ∅ []))
     = Hang.
Proof.
  assert (H1 : length [x01; x02] = 2%nat) by reflexivity.
  assert (H2 : len [x01; x02] < 4) by (vm_compute; reflexivity).
  assert (H3 : 4 - len [x01; x02] < len [x03; x04; x05])
    by (vm_compute; reflexivity).
  split; [repeat split; assumption|].
  exact (recv_all_overrun 5 4 1 [x01; x02] [x03; x04; x05] [] false ∅ []
           H1 H2 H3).
Defined.

(** ** The server speaks first *)

Lemma appends_preserves {A} (m : M A) : preserves sent m -> appends m.
Proof. intros H w. exists []. rewrite H, app_nil_r. reflexivity. Qed.

Lemma appends_bind {A B} (m : M A) (k : A -> M B) :
  appends m -> (forall a, appends (k a)) -> appends (bind m k).
Proof.
  intros Hm Hk w. unfold bind. destruct (Hm w) as [more1 H1].
  destruct (m w) as [[a|e|] w1]; cbn [snd] in *; eauto.
  destruct (Hk a w1) as [more2 H2]. exists (more1 ++ more2).
  rewrite H2, H1, app_assoc. reflexivity.
Qed.

Lemma appends_for_in {A S} (l : list A) (body : A -> S -> M S) :
  (forall x acc, appends (body x acc)) -> forall acc, appends (for_in l body acc).
Proof.
  intros Hb. induction l as [|x l IH]; intros acc; cbn [for_in].
  - apply appends_preserves, preserves_ret.
  - apply appends_bind; auto.
Qed.

Lemma appends_sendall data : appends (sendall data).
Proof. intros w. exists data. reflexivity. Qed.

Lemma appends_send_bool v : appends (send_bool v).
Proof.
  unfold send_bool. apply appends_bind;
    [apply appends_preserves, preserves_lift | intros; apply appends_sendall].
Qed.

(** Whatever the client sends and however its bytes arrive, what the
    server writes on a connection begins with the version number 1,
    and nothing written before is changed. *)
Theorem server_speaks_first fuel w :
  exists more,
    sent (snd (server_handle_request fuel w)) = sent w ++ int32_le 1 ++ more.
Proof.
  unfold server_handle_request. rewrite with_conn_sent_eq.
  rewrite (bind_lift_ok _ _ _ _ pack_version).
  rewrite (bind_ok _ _ _ _ _ (sendall_eq _ _)).
  match goal with
  | |- exists more, sent (snd (?m ?w1)) = _ =>
      assert (Hm : appends m); [|destruct (Hm w1) as [more Hmore]]
  end.
  - assert (Hr : forall n, preserves sent (recv n)) by apply recv_sent.
    apply appends_bind;
      [apply appends_preserves, recv_single_value_preserves, Hr|].
    intros [|].
    + apply appends_bind;
        [apply appends_preserves, recv_str_list_preserves, Hr|].
      intros filenames. apply appends_for_in. intros filename _.
      apply appends_bind; [apply appends_preserves, preserves_isfile|].
      intros [|]; [|apply appends_preserves, preserves_ret].
      apply appends_bind; [apply appends_preserves, preserves_read_file|].
      intros file_data. apply appends_bind; [apply appends_send_bool|].
      intros _. apply appends_bind; [apply appends_preserves, preserves_lift|].
      intros size. apply appends_bind; intros; apply appends_sendall.
    + apply appends_bind;
        [apply appends_preserves, recv_single_value_preserves, Hr|].
      intros amount. apply appends_for_in. intros _ _.
      apply appends_bind; [apply appends_preserves, recv_str_preserves, Hr|].
      intros filename.
      apply appends_bind;
        [apply appends_preserves, recv_single_value_preserves, Hr|].
      intros size.
      apply appends_bind; [apply appends_preserves, recv_all_preserves, Hr|].
      intros data. apply appends_preserves, save_file_sent.
  - exists more. rewrite Hmore. unfold sent, set_conn. cbn [conn outbuf].
    rewrite <- app_assoc. reflexivity.
Qed.

(** ** The check that [main] makes before a put *)

Lemma all_isfile_eq file w :
  all_isfile file w
  = (Ok (forallb (fun name => bool_decide (is_Some (contents (files w) name))) file), w).
Proof.
  induction file as [|name file IH]; [reflexivity|].
  cbn [all_isfile forallb]. rewrite (bind_ok _ _ _ _ _ (isfile_eq _ _)).
  destruct (bool_decide (is_Some (contents (files w) name))); [exact IH | reflexivity].
Qed.

Lemma forallb_missing (fs : gmap pystr bytes) file :
  Exists (fun name => contents fs name = None) file ->
  forallb (fun name => bool_decide (is_Some (contents fs name))) file = false.
Proof.
  induction 1 as [name file E|name file _ IH]; cbn [forallb].
  - rewrite bool_decide_eq_false_2; [reflexivity|].
    rewrite E. intros [data H]. discriminate.
  - rewrite IH. apply andb_false_r.
Qed.

Lemma forallb_present (fs : gmap pystr bytes) file :
  forallb (fun name => bool_decide (is_Some (contents fs name))) file = true ->
  Forall (fun name => is_Some (contents fs name)) file.
Proof.
  induction file as [|name file IH]; cbn [forallb]; intros H;
    [apply List.Forall_nil|].
  apply andb_true_iff in H as [Hname Hrest].
  apply List.Forall_cons; [|apply IH, Hrest].
  apply bool_decide_eq_true_1 in Hname. exact Hname.
Qed.

(** [main] does not start a put when one of the named files is not
    there: it prints that it is not trying and returns; nothing is
    read from or written to the server and no file is touched. *)
Theorem main_put_refuses fuel file backlog w :
  Exists (fun name => contents (files w) name = None) file ->
  main fuel (Put file) backlog w
  = (Ok tt,
     World (conn w) (files w)
           (stdout w ++ [Text (py "Not all of the given files exist, not trying")])).
Proof.
  intros H. cbn [main].
  rewrite (bind_ok _ _ _ _ _ (all_isfile_eq _ _)).
  rewrite forallb_missing by exact H. reflexivity.
Qed.

Lemma main_put_refuses_witness :
  let w := start (int32_le 1) {[ py "b.txt" := [x77] ]} in
  Exists (fun name => contents (files w) name = None) [py "b.txt"; py "missing.txt"]
  /\ main 0 (Put [py "b.txt"; py "missing.txt"]) [] w
     = (Ok tt,
        World (conn w) (files w)
              (stdout w
               ++ [Text (py "Not all of the given files exist, not trying")])).
Proof.
  intros w.
  assert (H : Exists (fun name => contents (files w) name = None)
                     [py "b.txt"; py "missing.txt"]).
  { apply Exists_cons_tl, Exists_cons_hd. reflexivity. }
  split; [exact H|].
  exact (main_put_refuses 0 [py "b.txt"; py "missing.txt"] [] w H).
Defined.

(** *** No FileNotFoundError once the check has passed *)

Lemma finds_files_bind {A B : Type} fs (m : M A) (k : A -> M B) :
  finds_files fs m -> (forall a, finds_files fs (k a)) ->
  finds_files fs (bind m k).
Proof.
  intros Hm Hk w Hw. unfold bind. destruct (Hm w Hw) as [H1 H2].
  destruct (m w) as [[a|e|] w1]; simpl in H1, H2 |- *.
  - apply Hk, H2.
  - split; [|assumption]. intros E. injection E as ->. apply H1. reflexivity.
  - split; [discriminate | assumption].
Qed.

Lemma finds_files_harmless {A : Type} fs (m : M A) :
  (forall w, fst (m w) <> Raise FileNotFoundError) ->
  preserves files m -> finds_files fs m.
Proof. intros H1 H2 w Hw. split; [apply H1 | rewrite H2; exact Hw]. Qed.

Lemma finds_files_lift {A : Type} fs (r : result A) :
  r <> Raise FileNotFoundError -> finds_files fs (lift r).
Proof.
  intros H. apply finds_files_harmless; [intros w; exact H|].
  apply preserves_lift.
Qed.

Lemma finds_files_recv fs n : finds_files fs (recv n).
Proof.
  apply finds_files_harmless; [|apply recv_files].
  intros w. unfold recv. destruct (n <? 0); discriminate.
Qed.

Lemma finds_files_sendall fs data : finds_files fs (sendall data).
Proof.
  apply finds_files_harmless; [discriminate | apply sendall_files].
Qed.

Lemma finds_files_print fs l : finds_files fs (print l).
Proof.
  apply finds_files_harmless; [discriminate | apply print_files].
Qed.

Lemma finds_files_recv_all_loop fs fuel n : forall data,
  finds_files fs (recv_all_loop fuel n data).
Proof.
  induction fuel as [|fuel IH]; intros data; cbn [recv_all_loop];
    destruct (len data =? n);
    try (apply finds_files_harmless; [discriminate | apply preserves_ret]).
  - intros w Hw. split; [discriminate | exact Hw].
  - apply finds_files_bind; [apply finds_files_recv | intros more; apply IH].
Qed.

Lemma unpack_finds frmt data : unpack frmt data <> Raise FileNotFoundError.
Proof.
  destruct frmt; cbn [unpack]; unfold unpack_i, unpack_b;
    repeat (destruct data as [|? data]; try discriminate).
Qed.

Lemma pack_finds frmt v : pack frmt v <> Raise FileNotFoundError.
Proof.
  destruct frmt; cbn [pack]; unfold pack_i, pack_b; [|discriminate].
  destruct ((int32_min <=? v) && (v <=? int32_max)); discriminate.
Qed.

Lemma encode_finds s : encode s <> Raise FileNotFoundError.
Proof.
  induction s as [|c s IH]; cbn [encode]; [discriminate|].
  destruct (encode_char c) as [bs|e|] eqn:E; [| |discriminate].
  - destruct (encode s); cbn [result_map]; congruence.
  - unfold encode_char in E. destruct (negb (is_scalar c)); [congruence|].
    destruct (c <? 128); [discriminate|].
    destruct (c <? 2048); [discriminate|].
    destruct (c <? 65536); discriminate.
Qed.

Lemma finds_files_recv_single_value fs fuel frmt :
  finds_files fs (recv_single_value fuel frmt).
Proof.
  unfold recv_single_value, recv_formatted_data, recv_all.
  apply finds_files_bind.
  - apply finds_files_bind; [apply finds_files_recv|].
    apply finds_files_recv_all_loop.
  - intros data. apply finds_files_lift, unpack_finds.
Qed.

Lemma finds_files_send_str fs s : finds_files fs (send_str s).
Proof.
  unfold send_str.
  apply finds_files_bind; [apply finds_files_lift, encode_finds|]. intros bs.
  apply finds_files_bind; [apply finds_files_lift, (pack_finds Fmt_i)|].
  intros data.
  apply finds_files_bind; [apply finds_files_lift; discriminate|]. intros field.
  apply finds_files_sendall.
Qed.

Lemma finds_files_read_file (fs : gmap pystr bytes) name :
  is_Some (contents fs name) -> finds_files fs (read_file name).
Proof.
  intros [data E] w Hw. subst fs. rewrite (read_file_eq name data w E).
  split; [discriminate | reflexivity].
Qed.

Lemma finds_files_for_in {A S : Type} fs (l : list A) (body : A -> S -> M S) :
  Forall (fun x => forall acc, finds_files fs (body x acc)) l ->
  forall acc, finds_files fs (for_in l body acc).
Proof.
  induction 1 as [|x l Hx _ IH]; intros acc; cbn [for_in].
  - apply finds_files_harmless; [discriminate | apply preserves_ret].
  - apply finds_files_bind; auto.
Qed.

Lemma with_conn_fst {A} (body : M A) w :
  fst (with_conn body w) = fst (body w).
Proof. unfold with_conn. destruct (body w) as [[a|e|] w1]; reflexivity. Qed.

Lemma put_files_finds fuel file w :
  Forall (fun name => is_Some (contents (files w) name)) file ->
  fst (put_files fuel file w) <> Raise FileNotFoundError.
Proof.
  intros Hall. unfold put_files. rewrite with_conn_fst.
  match goal with
  | |- fst (?m w) <> _ =>
      assert (Hm : finds_files (files w) m); [|apply (Hm w eq_refl)]
  end.
  apply finds_files_bind; [apply finds_files_recv_single_value|].
  intros version_number.
  destruct (negb (version_number =? 1)); [apply finds_files_print|].
  apply finds_files_bind.
  { unfold send_bool. apply finds_files_bind;
      [apply finds_files_lift; discriminate | intros; apply finds_files_sendall]. }
  intros _.
  apply finds_files_bind; [apply finds_files_lift, (pack_finds Fmt_i)|].
  intros count. apply finds_files_bind; [apply finds_files_sendall|]. intros _.
  apply finds_files_for_in. eapply Forall_impl; [exact Hall|].
  intros name Hname _.
  apply finds_files_bind; [apply finds_files_read_file, Hname|].
  intros file_data.
  apply finds_files_bind; [apply finds_files_send_str|]. intros _.
  apply finds_files_bind; [apply finds_files_lift, (pack_finds Fmt_i)|].
  intros size. apply finds_files_bind; intros; apply finds_files_sendall.
Qed.

(** A put started through [main] never ends in FileNotFoundError,
    whatever files are named, whatever is there and whatever the
    server sends: a missing file is caught by the check beforehand, and
    [put_files] itself removes nothing. *)
Theorem main_put_finds_its_files fuel file backlog w :
  fst (main fuel (Put file) backlog w) <> Raise FileNotFoundError.
Proof.
  cbn [main]. rewrite (bind_ok _ _ _ _ _ (all_isfile_eq _ _)).
  destruct (forallb _ file) eqn:E; cbn [negb]; [|discriminate].
  apply put_files_finds, forallb_present, E.
Qed.

(** ** A put followed by a get *)







